(** * pulse.py: distance-triggered fan pulses in a G-code stream

    A shallow embedding of [src/pulse.py] and the properties of its
    rewriting loop.

    Modelling choices.
    - Text is [string]; a character is a code point below 256.
    - Python floats are modelled by exact rationals ([Q]): parsing a decimal
      literal, interpolation, the accumulator and the [%.5f] formatting are
      all exact.  Rounding error, infinities and the sign of zero are outside
      the model.
    - [math.hypot] is a parameter of the development (a [Section] variable):
      every result holds for any function into the non-negative rationals,
      and [hypot_isqrt] is an executable instance, exact on Pythagorean
      inputs, used to run the rewriter on concrete files.
    - [print] is modelled as a list of lines written to standard output;
      the file is modelled as its list of lines ([readlines]/[writelines]). *)

From Stdlib Require Import Bool List ZArith QArith Qround Lia Lqa.
From Stdlib Require Import Ascii String DecimalString DecimalPos.
Import ListNotations.

Local Open Scope string_scope.
Local Open Scope list_scope.

(** ** Characters and strings *)

Module Text.

(** The line terminator, ["\n"]. *)
Definition nl : string := String (ascii_of_nat 10) EmptyString.

(** A line of a file: its text and the terminator. *)
Definition ln (s : string) : string := s ++ nl.

(** [str.isspace] on code points below 256; also the class [\s]. *)
Definition isspace (c : ascii) : bool :=
  let n := nat_of_ascii c in
  ((9 <=? n) && (n <=? 13) || (28 <=? n) && (n <=? 32)
   || (n =? 133) || (n =? 160))%nat.

(** The class [\d] on code points below 256. *)
Definition isdigit (c : ascii) : bool :=
  let n := nat_of_ascii c in ((48 <=? n) && (n <=? 57))%nat.

(** A literal pattern character under [re.IGNORECASE]. *)
Definition eq_nocase (a c : ascii) : bool :=
  let fold (x : ascii) :=
    let n := nat_of_ascii x in
    if ((97 <=? n) && (n <=? 122))%nat then (n - 32)%nat else n in
  (fold a =? fold c)%nat.

Fixpoint lstrip (s : string) : string :=
  match s with
  | EmptyString => EmptyString
  | String c s' => if isspace c then lstrip s' else s
  end.

Fixpoint rstrip (s : string) : string :=
  match s with
  | EmptyString => EmptyString
  | String c s' =>
      match rstrip s' with
      | EmptyString => if isspace c then EmptyString else String c EmptyString
      | r => String c r
      end
  end.

(** [str.strip()] *)
Definition strip (s : string) : string := rstrip (lstrip s).

(** [s.startswith(p)] *)
Definition startswith (s p : string) : bool := prefix p s.

(** [p in s] for strings. *)
Fixpoint contains (p s : string) : bool :=
  prefix p s ||
  match s with
  | EmptyString => false
  | String _ s' => contains p s'
  end.

(** [s] begins with [tok], letter case apart. *)
Fixpoint iprefix (tok s : string) : bool :=
  match tok, s with
  | EmptyString, _ => true
  | String a tok', String c s' => eq_nocase a c && iprefix tok' s'
  | String _ _, EmptyString => false
  end.

Definition all_chars (p : ascii -> bool) (s : string) : bool :=
  forallb p (list_ascii_of_string s).

End Text.

(** ** A backtracking matcher for the regular expressions of the module *)

Module Re.

Import Text.

(** The fragment of [re] syntax the module uses: single-character classes,
    concatenation, alternation, and the greedy [?], [*] and [+] (the latter
    two over a character class). *)
Inductive regex : Type :=
| Chr (p : ascii -> bool)
| Seq (r1 r2 : regex)
| Alt (r1 r2 : regex)
| Opt (r : regex)
| Star (p : ascii -> bool)
| Plus (p : ascii -> bool).

(** All ways for [p*] to consume a prefix of [s], longest first. *)
Fixpoint star (p : ascii -> bool) (s : string) : list string :=
  match s with
  | EmptyString => [s]
  | String c s' => (if p c then star p s' else []) ++ [s]
  end.

(** [matches r s]: the remainders of [s] after every way of matching [r] at
    its start, in the order in which a backtracking matcher tries them. *)
Fixpoint matches (r : regex) (s : string) : list string :=
  match r with
  | Chr p =>
      match s with
      | String c s' => if p c then [s'] else []
      | EmptyString => []
      end
  | Seq r1 r2 => flat_map (matches r2) (matches r1 s)
  | Alt r1 r2 => matches r1 s ++ matches r2 s
  | Opt r1 => matches r1 s ++ [s]
  | Star p => star p s
  | Plus p =>
      match s with
      | String c s' => if p c then star p s' else []
      | EmptyString => []
      end
  end.

(** [re.match]: the text consumed by the first successful way, if any. *)
Definition re_match (r : regex) (s : string) : option string :=
  match matches r s with
  | rest :: _ => Some (substring 0 (length s - length rest) s)
  | [] => None
  end.

(** [re.search]: the match at the leftmost position that has one. *)
Fixpoint re_search (r : regex) (s : string) : option string :=
  match re_match r s with
  | Some m => Some m
  | None =>
      match s with
      | EmptyString => None
      | String _ s' => re_search r s'
      end
  end.

(** A literal string, case-sensitive or under [re.IGNORECASE]. *)
Fixpoint lit (eqc : ascii -> ascii -> bool) (c : ascii) (s : string) : regex :=
  match s with
  | EmptyString => Chr (eqc c)
  | String c' s' => Seq (Chr (eqc c)) (lit eqc c' s')
  end.

Definition ilit (s : string) : regex :=
  match s with
  | EmptyString => Opt (Chr (fun _ => false))
  | String c s' => lit eq_nocase c s'
  end.

End Re.

(** ** Numbers: [float(...)] on decimal text and [%.Nf] formatting *)

Module Num.

Import Text.

Definition digit_val (c : ascii) : Z := Z.of_nat (nat_of_ascii c) - 48.

(** Value of a run of decimal digits, most significant first. *)
Fixpoint digits_val (acc : Z) (s : string) : Z :=
  match s with
  | EmptyString => acc
  | String c s' => digits_val (10 * acc + digit_val c) s'
  end.

(** Splits [s] at its first ['.'], if it has one. *)
Fixpoint split_dot (s : string) : string * option string :=
  match s with
  | EmptyString => (EmptyString, None)
  | String c s' =>
      if (c =? ".")%char then (EmptyString, Some s')
      else let (a, b) := split_dot s' in (String c a, b)
  end.

(** [float(s)] for unsigned decimal text: digits, optionally a point and
    more digits, at least one digit in all. *)
Definition float_unsigned (s : string) : option Q :=
  let (ip, fo) := split_dot s in
  let fp := match fo with Some f => f | None => EmptyString end in
  if all_chars isdigit ip && all_chars isdigit fp
     && (0 <? length ip + length fp)%nat
  then Some (Qmake (digits_val 0 (ip ++ fp))
                   (Z.to_pos (10 ^ Z.of_nat (length fp))))
  else None.

(** [float(s)] on the decimal texts the coordinate pattern can capture: an
    optional minus sign and an unsigned decimal.  [None] stands for every
    other text (on some of which Python raises [ValueError], and some of
    which, such as exponents, it accepts). *)
Definition float (s : string) : option Q :=
  match s with
  | String "-" s' => option_map Qopp (float_unsigned s')
  | _ => float_unsigned s
  end.

(** Round to the nearest integer, ties to even (the rounding of [%f]). *)
Definition round_half_even (x : Q) : Z :=
  let f := Qfloor x in
  match (x - inject_Z f ?= 1 # 2)%Q with
  | Lt => f
  | Gt => (f + 1)%Z
  | Eq => if Z.even f then f else (f + 1)%Z
  end.

Definition digit_char (d : Z) : ascii := ascii_of_nat (48 + Z.to_nat d).

(** The [k] low decimal digits of [n], zero-padded. *)
Fixpoint low_digits (k : nat) (n : Z) : string :=
  match k with
  | O => EmptyString
  | S k' => low_digits k' (n / 10) ++ String (digit_char (n mod 10)) EmptyString
  end.

(** [str(n)] for an integer. *)
Definition str_int (n : Z) : string := NilZero.string_of_int (Z.to_int n).

(** [f"{x:.{prec}f}"] for [prec >= 1]: sign, integer digits, a point and
    exactly [prec] fraction digits. *)
Definition format_f (prec : nat) (x : Q) : string :=
  let scale := (10 ^ Z.of_nat prec)%Z in
  let m := Z.abs (round_half_even (x * inject_Z scale)%Q) in
  (if Qle_bool 0%Q x then "" else "-")
    ++ str_int (m / scale) ++ "." ++ low_digits prec m.

(** The characters a formatted number is made of. *)
Definition numeric_char (c : ascii) : bool :=
  isdigit c || (c =? "-")%char || (c =? ".")%char.

End Num.

(** ** The rewriter of [pulse.py] *)

Module Pulse.

Import Text Re Num.

(** *** Configurable parameters *)

Definition TRIGGER_DISTANCE_MM : Q := 1%Q.
Definition FAN_ON_TIME_MS : Z := 200%Z.

(** *** The patterns *)

(** The pattern G0 or G1, then whitespace ([\s+]), then a group of any
    characters but [;], under [re.IGNORECASE].  Compiled by the module but
    never used by [process_gcode]. *)
Definition move_re : regex :=
  Seq (Alt (ilit "G0") (ilit "G1"))
      (Seq (Plus isspace) (Star (fun c => negb (c =? ";")%char))).

(** [^(M104|M109)], [re.IGNORECASE]. *)
Definition temperature_re : regex := Alt (ilit "M104") (ilit "M109").

(** [\.?\d+], the tail of the coordinate pattern. *)
Definition frac_re : regex := Seq (Opt (Chr (Ascii.eqb "."))) (Plus isdigit).

(** [-?\d*\.?\d+], the group of the coordinate pattern. *)
Definition number_re : regex :=
  Seq (Opt (Chr (Ascii.eqb "-"))) (Seq (Star isdigit) frac_re).

(** [f"{axis}(-?\\d*\\.?\\d+)"] *)
Definition axis_re (axis : ascii) : regex := Seq (Chr (Ascii.eqb axis)) number_re.

(** *** Coordinates *)

(** The dictionary built by [extract_coords]: each of the keys ['X'], ['Y'],
    ['E'], ['F'] is present or not. *)
Record coords : Type := mkCoords
  { cX : option Q; cY : option Q; cE : option Q; cF : option Q }.

(** The dictionary [last_pos] (and its copies [start], [end]): ['X'], ['Y']
    and ['E'] are present from the start and never removed, ['F'] appears
    once a line has set it. *)
Record position : Type := mkPos
  { pX : Q; pY : Q; pE : Q; pF : option Q }.

(** One axis of [extract_coords]: [re.search] for the axis pattern, then
    [float(match.group(1))]; group 1 is the match without the axis letter. *)
Definition extract_axis (axis : ascii) (line : string) : option Q :=
  match re_search (axis_re axis) line with
  | Some (String _ group1) => float group1
  | _ => None
  end.

Definition extract_coords (line : string) : coords :=
  {| cX := extract_axis "X" line;
     cY := extract_axis "Y" line;
     cE := extract_axis "E" line;
     cF := extract_axis "F" line |}.

(** *** The numeric grammar and the leftmost numeric occurrence

    The coordinate pattern read as a grammar: an optional minus sign, a run
    of digits, and a point followed by at least one digit, where the digits
    before the point may be missing and the point with its digits may be
    missing, but not both. *)

Fixpoint take_digits (s : string) : string :=
  match s with
  | EmptyString => EmptyString
  | String c s' => if isdigit c then String c (take_digits s') else EmptyString
  end.

Fixpoint skip_digits (s : string) : string :=
  match s with
  | EmptyString => EmptyString
  | String c s' => if isdigit c then skip_digits s' else s
  end.

Definition starts_digit (s : string) : bool :=
  match s with
  | EmptyString => false
  | String c _ => isdigit c
  end.

(** The longest unsigned number at the start of [s] and the text after it. *)
Definition unsigned_split (s : string) : option (string * string) :=
  let whole := if starts_digit s then Some (take_digits s, skip_digits s) else None in
  match skip_digits s with
  | String c r =>
      if (c =? ".")%char && starts_digit r
      then Some ((take_digits s ++ String c (take_digits r))%string, skip_digits r)
      else whole
  | EmptyString => whole
  end.

(** The number at the start of [s], with its sign, and the text after it. *)
Definition number_split (s : string) : option (string * string) :=
  match s with
  | String "-" s' =>
      match unsigned_split s' with
      | Some (t, r) => Some (String "-" t, r)
      | None => None
      end
  | _ => unsigned_split s
  end.

(** The text the numeric grammar accepts at the start of [s], if any. *)
Definition number_text (s : string) : option string :=
  option_map fst (number_split s).

(** The same split, on a line stripped of its trailing whitespace. *)
Definition strip_rest (tr : string * string) : string * string :=
  (fst tr, rstrip (snd tr)).

(** The value after the leftmost occurrence of the axis letter that is
    followed by a number. *)
Fixpoint extract_leftmost (axis : ascii) (line : string) : option Q :=
  match line with
  | EmptyString => None
  | String c rest =>
      if (axis =? c)%char then
        match number_text rest with
        | Some t => float t
        | None => extract_leftmost axis rest
        end
      else extract_leftmost axis rest
  end.

(** The text after the first occurrence of the axis letter. *)
Fixpoint after_first (axis : ascii) (line : string) : option string :=
  match line with
  | EmptyString => None
  | String c rest => if (axis =? c)%char then Some rest else after_first axis rest
  end.

(** An extractor that looks at the first occurrence of the axis letter
    only: the value of the number that follows it, and absent when the
    letter does not occur or no number follows its first occurrence. *)
Definition extract_first_only (axis : ascii) (line : string) : option Q :=
  match after_first axis line with
  | Some rest =>
      match number_text rest with
      | Some t => float t
      | None => None
      end
  | None => None
  end.

Definition set_or_keep (new : option Q) (old : Q) : Q :=
  match new with Some v => v | None => old end.

(** [d.update(coords)] on a position. *)
Definition update (p : position) (c : coords) : position :=
  {| pX := set_or_keep (cX c) (pX p);
     pY := set_or_keep (cY c) (pY p);
     pE := set_or_keep (cE c) (pE p);
     pF := match cF c with Some v => Some v | None => pF p end |}.

Definition interpolate (a b t : Q) : Q := (a + (b - a) * t)%Q.

(** [range(a, b)] *)
Definition range (a b : Z) : list Z :=
  map (fun k => (a + Z.of_nat k)%Z) (seq 0 (Z.to_nat (b - a))).

(** The positions yielded by the generator [segment_move], in order. *)
Definition segment_move (start end_ : position) (segments : Z) : list position :=
  map (fun i =>
         let t := (inject_Z i / inject_Z segments)%Q in
         {| pX := interpolate (pX start) (pX end_) t;
            pY := interpolate (pY start) (pY end_) t;
            pE := interpolate (pE start) (pE end_) t;
            pF := match pF end_ with Some f => Some f | None => pF start end |})
      (range 1 (segments + 1)).

(** *** Emitted lines *)

(** [f"{move_type} X{p['X']:.5f} Y{p['Y']:.5f} E{p['E']:.5f}\n"] *)
Definition move_line (move_type : string) (p : position) : string :=
  move_type ++ " X" ++ format_f 5 (pX p) ++ " Y" ++ format_f 5 (pY p)
            ++ " E" ++ format_f 5 (pE p) ++ nl.

Definition fan_on_line : string := "M106 S255 ; ON" ++ nl.
Definition dwell_line : string := "G4 P" ++ str_int FAN_ON_TIME_MS ++ " ; Wait" ++ nl.
Definition fan_off_line : string := "M107 ; OFF" ++ nl.

(** [f"Triggered at X{seg['X']:.2f} Y{seg['Y']:.2f}"], the line printed
    at each pulse. *)
Definition triggered_msg (seg : position) : string :=
  "Triggered at X" ++ format_f 2 (pX seg) ++ " Y" ++ format_f 2 (pY seg).

(** The four lines appended for one yielded position. *)
Definition pulse_lines (move_type : string) (seg : position) : list string :=
  [move_line move_type seg; fan_on_line; dwell_line; fan_off_line].

(** *** State of the loop *)

(** The two variables that outlive a line. *)
Record tracker : Type := mkTracker
  { last_pos : position; accumulated_distance : Q }.

Definition initial : tracker :=
  {| last_pos := {| pX := 0%Q; pY := 0%Q; pE := 0%Q; pF := None |};
     accumulated_distance := 0%Q |}.

(** What one line adds: lines appended to [output_lines], lines printed. *)
Record emitted : Type := mkEmitted
  { appended : list string; printed : list string }.

Definition nothing : emitted := {| appended := []; printed := [] |}.

(** One iteration of the loop over [segment_move(start, end, segments)]. *)
Definition pulse_iteration (move_type : string)
    (s : emitted * Q) (seg : position) : emitted * Q :=
  let (em, acc) := s in
  ({| appended := appended em ++ pulse_lines move_type seg;
      printed := printed em ++ [triggered_msg seg] |},
   (acc - TRIGGER_DISTANCE_MM)%Q).

(** *** Reading and writing the file, and further vocabulary *)

(** [f.readlines()] on the text of a file (as Python sees it in text mode,
    line ends already [\n]): the text is cut after each [\n]; a last line
    without terminator is kept as it is. *)
Fixpoint readlines (text : string) : list string :=
  match text with
  | EmptyString => []
  | String c rest =>
      if (c =? "010")%char then String c EmptyString :: readlines rest
      else match readlines rest with
           | [] => [String c EmptyString]
           | l :: ls => String c l :: ls
           end
  end.

(** [f.writelines(lines)]: the strings written one after the other. *)
Definition writelines (lines : list string) : string :=
  fold_right append EmptyString lines.

(** A line as [readlines] gives them: not empty, and with no [\n] before
    its last character. *)
Fixpoint one_line (l : string) : bool :=
  match l with
  | EmptyString => false
  | String c EmptyString => true
  | String c rest => negb (c =? "010")%char && one_line rest
  end.

(** The line ends with [\n]. *)
Fixpoint terminated (l : string) : bool :=
  match l with
  | EmptyString => false
  | String c EmptyString => (c =? "010")%char
  | String _ rest => terminated rest
  end.

(** A line with its terminator. *)
Definition whole_line (l : string) : Prop :=
  one_line l = true /\ terminated l = true.

(** Any character but [\n]. *)
Definition not_newline (c : ascii) : bool := negb (c =? "010")%char.

(** The lines of a file: each is one line, and all but the last end
    with [\n]. *)
Fixpoint file_lines (lines : list string) : Prop :=
  match lines with
  | [] => True
  | [l] => one_line l = true
  | l :: rest => one_line l = true /\ terminated l = true /\ file_lines rest
  end.

(** The coordinates of a list of lines merged, in order, onto a position. *)
Definition merged (pos : position) (lines : list string) : position :=
  fold_left (fun p l => update p (extract_coords l)) lines pos.



(** A value rounded to [prec] decimals, as [%.{prec}f] prints it. *)
Definition rounded (prec : nat) (x : Q) : Q :=
  (inject_Z (round_half_even (x * inject_Z (10 ^ Z.of_nat prec)))
   / inject_Z (10 ^ Z.of_nat prec))%Q.

(** An executable [hypot]: the integer square root of the exact sum of
    squares, on its reduced denominator.  Exact whenever the root is
    rational. *)
Definition hypot_isqrt (x y : Q) : Q :=
  let s := Qred (x * x + y * y) in
  Qred (Qmake (Z.sqrt (Qnum s * Zpos (Qden s))) (Qden s)).

(** A small file, used to run the rewriter. *)
Definition sample_lines : list string :=
  [ln "M104 S200"; ln "G1 X3 Y4 E1 F1500 ; first"; ln "G0 X0 Y0";
   ln "G1 X0.5 E1.5"; ln "G1 X1.25 E2"].

Section Rewriter.

(** [math.hypot] *)
Variable hypot : Q -> Q -> Q.

Definition distance_xy (p1 p2 : Q * Q) : Q :=
  hypot (fst p2 - fst p1) (snd p2 - snd p1).

(** The body of the loop of [process_gcode] over the lines of the file. *)
Definition process_line (st : tracker) (line : string) : tracker * emitted :=
  let stripped := strip line in
  if (match re_match temperature_re stripped with Some _ => true | None => false end)
  then (st, nothing)
  else if negb (startswith stripped "G0" || startswith stripped "G1")
          || negb (contains "E" stripped)
  then
    let coords := extract_coords line in
    ({| last_pos := update (last_pos st) coords;
        accumulated_distance := accumulated_distance st |},
     {| appended := [line]; printed := [] |})
  else
    let coords := extract_coords stripped in
    let move_type := if contains "G1" stripped then "G1" else "G0" in
    let start := last_pos st in
    let end_ := update start coords in
    let dist_xy := distance_xy (pX start, pY start) (pX end_, pY end_) in
    let extruding := negb (Qle_bool (pE end_) (pE start)) in
    if extruding then
      let acc := (accumulated_distance st + dist_xy)%Q in
      let (em, acc') :=
        if Qle_bool TRIGGER_DISTANCE_MM acc then
          let segments := Qfloor (acc / TRIGGER_DISTANCE_MM) in
          fold_left (pulse_iteration move_type)
                    (segment_move start end_ segments) (nothing, acc)
        else (nothing, acc) in
      ({| last_pos := update (last_pos st) coords;
          accumulated_distance := acc' |},
       {| appended := appended em ++ [move_line move_type end_];
          printed := printed em |})
    else
      ({| last_pos := update (last_pos st) coords;
          accumulated_distance := accumulated_distance st |},
       {| appended := [line]; printed := [] |}).

(** The loop, from a given state. *)
Fixpoint process_lines (st : tracker) (lines : list string) : tracker * emitted :=
  match lines with
  | [] => (st, nothing)
  | line :: rest =>
      let (st1, em1) := process_line st line in
      let (st2, em2) := process_lines st1 rest in
      (st2, {| appended := appended em1 ++ appended em2;
               printed := printed em1 ++ printed em2 |})
  end.

(** [process_gcode]: from the lines read to the lines written back. *)
Definition process_gcode (lines : list string) : list string :=
  appended (snd (process_lines initial lines)).

(** What [process_gcode] prints while it runs. *)
Definition process_gcode_stdout (lines : list string) : list string :=
  printed (snd (process_lines initial lines)).

(** *** The vocabulary of the properties *)

(** The line is dropped: the thermal pattern matches its stripped text. *)
Definition is_thermal (line : string) : bool :=
  match re_match temperature_re (strip line) with
  | Some _ => true
  | None => false
  end.

(** The stripped line starts with one of the two motion codes. *)
Definition is_motion (line : string) : bool :=
  startswith (strip line) "G0" || startswith (strip line) "G1".

(** The line enters the distance-tracking branch of the loop. *)
Definition is_tracked (line : string) : bool :=
  negb (is_thermal line) && is_motion line && contains "E" (strip line).

(** [move_type] of a tracked line. *)
Definition move_type_of (line : string) : string :=
  if contains "G1" (strip line) then "G1" else "G0".

(** [end] of a tracked line read at position [start]. *)
Definition move_end (start : position) (line : string) : position :=
  update start (extract_coords (strip line)).

(** [dist_xy] of a tracked line read at position [start]. *)
Definition displacement (start : position) (line : string) : Q :=
  let end_ := move_end start line in
  distance_xy (pX start, pY start) (pX end_, pY end_).

(** A depositing move: a tracked line whose E strictly increases. *)
Definition is_depositing (start : position) (line : string) : bool :=
  is_tracked line && negb (Qle_bool (pE (move_end start line)) (pE start)).

(** The number of iterations of the pulse loop when the accumulator,
    after the addition of the displacement, is [acc]. *)
Definition crossings (acc : Q) : Z :=
  if Qle_bool TRIGGER_DISTANCE_MM acc
  then Qfloor (acc / TRIGGER_DISTANCE_MM) else 0%Z.

(** The planar displacements of the depositing moves of a list of lines
    read from position [pos], in order. *)
Fixpoint displacements (pos : position) (lines : list string) : list Q :=
  match lines with
  | [] => []
  | line :: rest =>
      if is_thermal line then displacements pos rest
      else if is_tracked line then
        (if is_depositing pos line then [displacement pos line] else [])
          ++ displacements (move_end pos line) rest
      else displacements (update pos (extract_coords line)) rest
  end.

Definition Qsum (l : list Q) : Q := fold_right Qplus 0%Q l.

(** The number of pulses of a run: one line is printed per pulse. *)
Definition pulses (lines : list string) : nat :=
  List.length (process_gcode_stdout lines).

(** The lines of a file that are not dropped, in order. *)
Definition kept (lines : list string) : list string :=
  filter (fun l => negb (is_thermal l)) lines.

(** What stands in the output for a line that is not dropped: the line
    itself, or, for a tracked line, the lines of some pulses followed by a
    motion line to the end of the move. *)
Definition line_image (line : string) (chunk : list string) : Prop :=
  chunk = [line] \/
  (is_tracked line = true /\
   exists (pos : position) (segs : list position),
     chunk = flat_map (pulse_lines (move_type_of line)) segs
               ++ [move_line (move_type_of line) (move_end pos line)]).

(** The accumulator is in the half-open interval below the threshold. *)
Definition in_range (st : tracker) : Prop :=
  (0 <= accumulated_distance st /\ accumulated_distance st < TRIGGER_DISTANCE_MM)%Q.

(** Neither the feed-rate letter nor the comment mark. *)
Definition plain_move_char (c : ascii) : bool :=
  negb (c =? "F")%char && negb (c =? ";")%char.

(** Two states that agree on everything but the feed rate. *)
Definition same_but_feed (st st' : tracker) : Prop :=
  pX (last_pos st) = pX (last_pos st') /\
  pY (last_pos st) = pY (last_pos st') /\
  pE (last_pos st) = pE (last_pos st') /\
  accumulated_distance st = accumulated_distance st'.

(** [process_gcode] on the text of the file: read the lines, rewrite them,
    write them back. *)
Definition process_gcode_text (text : string) : string :=
  writelines (process_gcode (readlines text)).

End Rewriter.

(** *** The program: files, standard streams and exit status

    What surrounds the program is a parameter of the model: the files are a
    partial map from paths to texts; [open(path, 'r')] fails on a path with
    no text, and [open(path, 'w')] fails on a path that is read-only, each
    with a message that is left abstract; a write that begins succeeds.
    Standard input is the list of the lines still to be read, standard
    output the list of what was printed.  A traceback on standard error is
    not modelled. *)

Record world : Type := mkWorld
  { files : string -> option string;
    read_only : string -> bool;
    stdin : list string;
    stdout : list string }.

(** How a block of statements ends: it runs to its end, raises an exception
    of class [Exception] with the given message, or leaves by [sys.exit]. *)
Inductive outcome : Type :=
| Returned
| Raised (message : string)
| Exited (status : Z).

(** [print(s)] *)
Definition print (s : string) (w : world) : world :=
  {| files := files w; read_only := read_only w; stdin := stdin w;
     stdout := stdout w ++ [s] |}.

(** [input(prompt)]: the prompt is written, a line is read; [None] stands
    for [EOFError]. *)
Definition input (prompt : string) (w : world) : world * option string :=
  let w1 := print prompt w in
  match stdin w1 with
  | [] => (w1, None)
  | l :: rest =>
      ({| files := files w1; read_only := read_only w1; stdin := rest;
          stdout := stdout w1 |}, Some l)
  end.

Definition eof_message : string := "EOF when reading a line".
Definition exit_prompt : string := "Press Enter to exit...".

(** The file at [path] replaced by [text]. *)
Definition write_file (path text : string) (w : world) : world :=
  {| files := fun p => if (p =? path)%string then Some text else files w p;
     read_only := read_only w; stdin := stdin w; stdout := stdout w |}.

Section Program.

Variable hypot : Q -> Q -> Q.

(** The messages of the exceptions raised by [open]. *)
Variable read_error : string -> string.
Variable write_error : string -> string.

(** [process_gcode(filepath)] with its effects: the file is read, the lines
    are rewritten (each pulse prints a line), the file is written. *)
Definition process_gcode_io (filepath : string) (w : world) : world * outcome :=
  match files w filepath with
  | None => (w, Raised (read_error filepath))
  | Some text =>
      let r := process_lines hypot initial (readlines text) in
      let w1 := fold_left (fun v s => print s v) (printed (snd r)) w in
      if read_only w1 filepath then (w1, Raised (write_error filepath))
      else (write_file filepath (writelines (appended (snd r))) w1, Returned)
  end.

(** The statements under [try:] in the main block. *)
Definition main_try (argv : list string) (w : world) : world * outcome :=
  if (List.length argv <? 2)%nat then
    let w1 := print "Usage: python pulse_fixed_no_temp.py <gcode_file>" w in
    let (w2, r) := input exit_prompt w1 in
    match r with
    | None => (w2, Raised eof_message)
    | Some _ => (w2, Exited 1)
    end
  else
    let gcode_file := nth 1 argv EmptyString in
    let w1 := print ("Processing G-code file: " ++ gcode_file) w in
    let (w2, o) := process_gcode_io gcode_file w1 in
    match o with
    | Returned =>
        let w3 := print "Done." w2 in
        let (w4, r) := input exit_prompt w3 in
        match r with
        | None => (w4, Raised eof_message)
        | Some _ => (w4, Returned)
        end
    | _ => (w2, o)
    end.

(** The main block: [try] the statements; [except Exception as e] prints
    the message, waits for a line and exits with status 1 (as does the
    [EOFError] of that last [input], which nothing catches); [sys.exit]
    is not an [Exception] and goes through.  The result is the world left
    and the exit status of the process. *)
Definition main (argv : list string) (w : world) : world * Z :=
  let (w1, o) := main_try argv w in
  match o with
  | Returned => (w1, 0%Z)
  | Exited status => (w1, status)
  | Raised message =>
      let w2 := print ("Error: " ++ message) w1 in
      let (w3, _) := input exit_prompt w2 in
      (w3, 1%Z)
  end.

End Program.

(** A world with one file, one line on standard input. *)
Definition sample_world : world :=
  {| files := fun p => if (p =? "part.gcode")%string
                       then Some (ln "M109 S210" ++ ln "G1 X1 E1")%string
                       else None;
     read_only := fun _ => false;
     stdin := [nl];
     stdout := [] |}.

(** A message for the failures of [open], used to run the program. *)
Definition no_message (path : string) : string := "cannot open " ++ path.

End Pulse.


(** ** Properties of the text and number helpers *)

Module TextFacts.

Import Text Re Num.

Local Open Scope string_scope.

(** Case analysis on the eight bits of a character. *)
Tactic Notation "ascii_cases" ident(c) :=
  destruct c as [[] [] [] [] [] [] [] []].

Lemma str_length_app (a b : string) : length (a ++ b) = (length a + length b)%nat.
Proof. induction a as [|c a IH]; cbn [append length]; [reflexivity | now rewrite IH]. Qed.

Lemma str_app_assoc (a b c : string) : (a ++ b) ++ c = a ++ b ++ c.
Proof. induction a as [|x a IH]; cbn [append]; [reflexivity | now rewrite IH]. Qed.

Lemma str_app_nil_r (a : string) : a ++ "" = a.
Proof. induction a as [|x a IH]; cbn [append]; [reflexivity | now rewrite IH]. Qed.

Lemma all_chars_app (p : ascii -> bool) (a b : string) :
  all_chars p (a ++ b) = all_chars p a && all_chars p b.
Proof.
  unfold all_chars. induction a as [|c a IH]; cbn [append list_ascii_of_string forallb].
  - reflexivity.
  - rewrite IH. apply andb_assoc.
Qed.

Lemma all_chars_weaken (p q : ascii -> bool) (s : string) :
  (forall c, p c = true -> q c = true) ->
  all_chars p s = true -> all_chars q s = true.
Proof.
  intros Hpq. unfold all_chars.
  induction s as [|c s IH]; cbn [list_ascii_of_string forallb]; [reflexivity|].
  intros H. apply andb_prop in H as [Hc Hs].
  rewrite (Hpq _ Hc), (IH Hs). reflexivity.
Qed.

Lemma digit_char_isdigit (d : Z) :
  (0 <= d < 10)%Z -> isdigit (digit_char d) = true.
Proof.
  intros H.
  assert (Hd : (d = 0 \/ d = 1 \/ d = 2 \/ d = 3 \/ d = 4 \/ d = 5 \/ d = 6
               \/ d = 7 \/ d = 8 \/ d = 9)%Z) by lia.
  repeat (destruct Hd as [-> | Hd]; [reflexivity|]). subst d. reflexivity.
Qed.

Lemma low_digits_isdigit (k : nat) :
  forall n : Z, all_chars isdigit (low_digits k n) = true.
Proof.
  induction k as [|k IH]; intros n; cbn [low_digits]; [reflexivity|].
  rewrite all_chars_app, IH. cbn [andb].
  unfold all_chars. cbn [list_ascii_of_string forallb].
  rewrite digit_char_isdigit; [reflexivity|]. apply Z.mod_pos_bound. lia.
Qed.

Lemma low_digits_length (k : nat) :
  forall n : Z, length (low_digits k n) = k.
Proof.
  induction k as [|k IH]; intros n; cbn [low_digits]; [reflexivity|].
  rewrite str_length_app, IH. cbn [length]. lia.
Qed.

Lemma string_of_uint_isdigit (d : Decimal.uint) :
  all_chars isdigit (NilEmpty.string_of_uint d) = true.
Proof.
  induction d; cbn [NilEmpty.string_of_uint]; try reflexivity;
    unfold all_chars in *; cbn [list_ascii_of_string forallb];
    rewrite IHd; reflexivity.
Qed.

Lemma str_int_isdigit (n : Z) :
  (0 <= n)%Z -> all_chars isdigit (str_int n) = true.
Proof.
  intros Hn. unfold str_int.
  destruct n as [|q|q]; [reflexivity| |lia].
  unfold Z.to_int, NilZero.string_of_int, NilZero.string_of_uint.
  destruct (Pos.to_uint q); try apply string_of_uint_isdigit. reflexivity.
Qed.

(** [%.Nf] yields an optional minus sign, decimal digits, a point and
    exactly [N] decimal digits. *)
Lemma format_f_shape (prec : nat) (x : Q) :
  exists (sign int_part frac_part : string),
    format_f prec x = sign ++ int_part ++ "." ++ frac_part /\
    (sign = "" \/ sign = "-") /\
    all_chars isdigit int_part = true /\
    all_chars isdigit frac_part = true /\
    length frac_part = prec.
Proof.
  unfold format_f.
  set (scale := (10 ^ Z.of_nat prec)%Z).
  set (m := Z.abs _).
  exists (if Qle_bool 0 x then "" else "-"), (str_int (m / scale)),
         (low_digits prec m).
  split; [reflexivity|]. split; [destruct (Qle_bool 0 x); auto|].
  split; [|split; [apply low_digits_isdigit | apply low_digits_length]].
  apply str_int_isdigit. apply Z.div_pos; [apply Z.abs_nonneg|].
  apply Z.pow_pos_nonneg; lia.
Qed.

Lemma format_f_numeric (prec : nat) (x : Q) :
  all_chars numeric_char (format_f prec x) = true.
Proof.
  destruct (format_f_shape prec x) as (sg & ip & fp & -> & Hs & Hi & Hf & _).
  assert (Hw : forall s, all_chars isdigit s = true -> all_chars numeric_char s = true).
  { intros s. apply all_chars_weaken. intros c Hc. unfold numeric_char. rewrite Hc. reflexivity. }
  rewrite !all_chars_app, (Hw _ Hi), (Hw _ Hf).
  destruct Hs as [-> | ->]; reflexivity.
Qed.

End TextFacts.

(** ** The coordinate pattern as a grammar *)

Module ReFacts.

Import Text Re Num Pulse TextFacts.

Local Open Scope string_scope.

Lemma hd_error_app {A : Type} (a b : list A) :
  hd_error (a ++ b)%list
  = match hd_error a with Some x => Some x | None => hd_error b end.
Proof. destruct a; reflexivity. Qed.

Lemma star_first (s : string) :
  hd_error (star isdigit s) = Some (skip_digits s).
Proof.
  induction s as [|c s IH]; cbn [star skip_digits]; [reflexivity|].
  rewrite hd_error_app. destruct (isdigit c); [rewrite IH|]; reflexivity.
Qed.

Lemma plus_first (s : string) :
  hd_error (matches (Plus isdigit) s)
  = if starts_digit s then Some (skip_digits s) else None.
Proof.
  destruct s as [|c s]; cbn [matches starts_digit skip_digits]; [reflexivity|].
  destruct (isdigit c); [apply star_first | reflexivity].
Qed.

Lemma matches_seq (r1 r2 : regex) (s : string) :
  matches (Seq r1 r2) s = flat_map (matches r2) (matches r1 s).
Proof. reflexivity. Qed.

Lemma matches_star (p : ascii -> bool) (s : string) :
  matches (Star p) s = star p s.
Proof. destruct s; reflexivity. Qed.

Lemma matches_opt_chr (a c : ascii) (s : string) :
  matches (Opt (Chr (Ascii.eqb a))) (String c s)
  = ((if (c =? a)%char then [s] else []) ++ [String c s])%list.
Proof. cbn [matches]. rewrite (Ascii.eqb_sym a c). reflexivity. Qed.

Lemma frac_first (s : string) :
  hd_error (matches frac_re s)
  = match s with
    | String c r =>
        if (c =? ".")%char && starts_digit r then Some (skip_digits r)
        else if isdigit c then Some (skip_digits s) else None
    | EmptyString => None
    end.
Proof.
  destruct s as [|c r]; [reflexivity|].
  unfold frac_re. rewrite matches_seq, matches_opt_chr.
  destruct (Ascii.eqb_spec c ".") as [-> | Hne].
  - cbn [app flat_map andb]. rewrite hd_error_app, plus_first.
    destruct (starts_digit r); reflexivity.
  - cbn [app flat_map andb]. rewrite app_nil_r, plus_first. reflexivity.
Qed.

Lemma unsigned_first (s : string) :
  hd_error (flat_map (matches frac_re) (star isdigit s))
  = option_map snd (unsigned_split s).
Proof.
  induction s as [|c s IH]; [reflexivity|].
  cbn [star]. destruct (isdigit c) eqn:Hc.
  - rewrite flat_map_app, hd_error_app, IH.
    cbn [flat_map]. rewrite app_nil_r, frac_first.
    unfold unsigned_split. cbn [starts_digit take_digits skip_digits].
    rewrite Hc.
    assert (Hdot : (c =? ".")%char = false).
    { destruct (Ascii.eqb_spec c "."); [subst c; discriminate | reflexivity]. }
    rewrite Hdot. cbn [andb].
    destruct (skip_digits s) as [|c2 r] eqn:Hs.
    + destruct (starts_digit s); reflexivity.
    + destruct ((c2 =? ".")%char && starts_digit r); [reflexivity|].
      destruct (starts_digit s); reflexivity.
  - cbn [app flat_map]. rewrite app_nil_r, frac_first.
    unfold unsigned_split. cbn [starts_digit take_digits skip_digits].
    rewrite Hc.
    destruct ((c =? ".")%char && starts_digit s); reflexivity.
Qed.

Lemma number_split_unsigned (c : ascii) (s : string) :
  c <> "-"%char -> number_split (String c s) = unsigned_split (String c s).
Proof.
  intros Hne. ascii_cases c; try reflexivity.
  contradiction Hne. reflexivity.
Qed.

Lemma number_first (s : string) :
  hd_error (matches number_re s) = option_map snd (number_split s).
Proof.
  destruct s as [|c s]; [reflexivity|].
  unfold number_re. rewrite matches_seq, matches_opt_chr.
  destruct (Ascii.eqb_spec c "-") as [-> | Hne].
  - cbn [app flat_map].
    assert (Hback : matches (Seq (Star isdigit) frac_re) (String "-" s) = [])
      by reflexivity.
    rewrite Hback, app_nil_r, matches_seq, matches_star, unsigned_first.
    cbn [number_split].
    destruct (unsigned_split s) as [[t r]|]; reflexivity.
  - cbn [app flat_map]. rewrite app_nil_r, matches_seq, matches_star, unsigned_first.
    rewrite number_split_unsigned by exact Hne. reflexivity.
Qed.

Lemma take_skip (s : string) : take_digits s ++ skip_digits s = s.
Proof.
  induction s as [|c s IH]; cbn [take_digits skip_digits]; [reflexivity|].
  destruct (isdigit c); [cbn [append]; rewrite IH|]; reflexivity.
Qed.

Lemma unsigned_split_app (s t r : string) :
  unsigned_split s = Some (t, r) -> s = t ++ r.
Proof.
  unfold unsigned_split. intros H.
  assert (Hwhole : (if starts_digit s then Some (take_digits s, skip_digits s)
                    else None) = Some (t, r) -> s = t ++ r).
  { destruct (starts_digit s); [|discriminate].
    intros [= <- <-]. symmetry. apply take_skip. }
  destruct (skip_digits s) as [|c r'] eqn:Hs; [auto|].
  destruct ((c =? ".")%char && starts_digit r'); [|auto].
  injection H as <- <-.
  rewrite str_app_assoc. cbn [append]. rewrite take_skip, <- Hs.
  symmetry. apply take_skip.
Qed.

Lemma number_split_app (s t r : string) :
  number_split s = Some (t, r) -> s = t ++ r.
Proof.
  destruct s as [|c s]; [discriminate|].
  destruct (Ascii.eqb_spec c "-") as [-> | Hne].
  - cbn [number_split].
    destruct (unsigned_split s) as [[t' r']|] eqn:Hu; [|discriminate].
    intros [= <- <-]. cbn [append]. f_equal. apply unsigned_split_app, Hu.
  - rewrite number_split_unsigned by exact Hne. apply unsigned_split_app.
Qed.

Lemma substring_prefix (t r : string) :
  substring 0 (length (t ++ r) - length r) (t ++ r) = t.
Proof.
  rewrite str_length_app.
  replace (length t + length r - length r)%nat with (length t) by lia.
  induction t as [|c t IH]; cbn [append length substring].
  - destruct r; reflexivity.
  - rewrite IH. reflexivity.
Qed.

(** [re.match] with the group pattern is the numeric grammar. *)
Lemma re_match_number (s : string) : re_match number_re s = number_text s.
Proof.
  unfold re_match, number_text.
  pose proof (number_first s) as H.
  destruct (number_split s) as [[t r]|] eqn:Hsplit.
  - destruct (matches number_re s) as [|rest l]; [discriminate|].
    cbn [hd_error option_map snd fst] in *. injection H as ->.
    rewrite (number_split_app _ _ _ Hsplit). f_equal. apply substring_prefix.
  - destruct (matches number_re s); [reflexivity | discriminate].
Qed.

Lemma re_match_axis (axis c : ascii) (s : string) :
  re_match (axis_re axis) (String c s)
  = if (axis =? c)%char then option_map (String c) (number_text s) else None.
Proof.
  unfold re_match, axis_re. cbn [matches].
  destruct (axis =? c)%char; [|reflexivity].
  cbn [flat_map]. rewrite app_nil_r.
  pose proof (number_first s) as H. unfold number_text.
  destruct (number_split s) as [[t r]|] eqn:Hsplit.
  - destruct (matches number_re s) as [|rest l]; [discriminate|].
    cbn [hd_error option_map snd fst] in *. injection H as ->.
    rewrite (number_split_app _ _ _ Hsplit). f_equal.
    change (substring 0 (length (String c t ++ r) - length r) (String c t ++ r)
            = String c t).
    apply substring_prefix.
  - destruct (matches number_re s); [reflexivity | discriminate].
Qed.

Lemma re_match_axis_empty (axis : ascii) : re_match (axis_re axis) "" = None.
Proof. reflexivity. Qed.

(** [extract_coords], axis by axis, reads the number after the leftmost
    occurrence of the letter that has one. *)
Lemma extract_axis_leftmost (axis : ascii) (line : string) :
  extract_axis axis line = extract_leftmost axis line.
Proof.
  unfold extract_axis.
  induction line as [|c s IH]; [reflexivity|].
  cbn [re_search extract_leftmost]. rewrite re_match_axis.
  destruct (axis =? c)%char; [|exact IH].
  destruct (number_text s) as [t|]; [reflexivity | exact IH].
Qed.

(** *** [float] accepts every text the pattern captures *)

Lemma take_digits_isdigit (s : string) : all_chars isdigit (take_digits s) = true.
Proof.
  unfold all_chars. induction s as [|c s IH]; cbn [take_digits]; [reflexivity|].
  destruct (isdigit c) eqn:Hc; [|reflexivity].
  cbn [list_ascii_of_string forallb]. rewrite Hc, IH. reflexivity.
Qed.

Lemma take_digits_nonempty (s : string) :
  starts_digit s = true -> exists c t, take_digits s = String c t /\ isdigit c = true.
Proof.
  destruct s as [|c s]; [discriminate|]. cbn [starts_digit take_digits].
  intros Hc. rewrite Hc. eauto.
Qed.

Lemma split_dot_digits (a : string) :
  all_chars isdigit a = true -> split_dot a = (a, None).
Proof.
  unfold all_chars. induction a as [|c a IH]; [reflexivity|].
  cbn [list_ascii_of_string forallb split_dot]. intros H.
  apply andb_prop in H as [Hc Ha]. rewrite (IH Ha).
  destruct (Ascii.eqb_spec c "."); [subst c; discriminate | reflexivity].
Qed.

Lemma split_dot_point (a b : string) :
  all_chars isdigit a = true -> split_dot (a ++ String "." b) = (a, Some b).
Proof.
  unfold all_chars. induction a as [|c a IH]; [reflexivity|].
  cbn [list_ascii_of_string forallb split_dot append]. intros H.
  apply andb_prop in H as [Hc Ha]. rewrite (IH Ha).
  destruct (Ascii.eqb_spec c "."); [subst c; discriminate | reflexivity].
Qed.

Lemma float_unsigned_whole (a : string) :
  all_chars isdigit a = true -> a <> "" ->
  exists q, float_unsigned a = Some q.
Proof.
  intros Ha Hne. unfold float_unsigned. rewrite (split_dot_digits a Ha), Ha.
  destruct a as [|c a]; [contradiction|]. eexists. reflexivity.
Qed.

Lemma float_unsigned_point (a b : string) :
  all_chars isdigit a = true -> all_chars isdigit b = true -> b <> "" ->
  exists q, float_unsigned (a ++ String "." b) = Some q.
Proof.
  intros Ha Hb Hne. unfold float_unsigned. rewrite (split_dot_point a b Ha), Ha, Hb.
  destruct b as [|c b]; [contradiction|]. cbn [length andb].
  rewrite Nat.add_succ_r. eexists. reflexivity.
Qed.

Lemma float_no_minus (c : ascii) (t : string) :
  c <> "-"%char -> float (String c t) = float_unsigned (String c t).
Proof.
  intros Hne. ascii_cases c; try reflexivity.
  contradiction Hne. reflexivity.
Qed.

Lemma unsigned_split_float (s t r : string) :
  unsigned_split s = Some (t, r) ->
  (exists q, float_unsigned t = Some q) /\
  (exists c t', t = String c t' /\ c <> "-"%char).
Proof.
  unfold unsigned_split. intros H.
  assert (Hwhole : (if starts_digit s then Some (take_digits s, skip_digits s)
                    else None) = Some (t, r) ->
                   (exists q, float_unsigned t = Some q) /\
                   (exists c t', t = String c t' /\ c <> "-"%char)).
  { destruct (starts_digit s) eqn:Hs; [|discriminate]. intros [= <- <-].
    destruct (take_digits_nonempty s Hs) as (c & t' & Ht & Hc). split.
    - apply float_unsigned_whole; [apply take_digits_isdigit|].
      rewrite Ht. discriminate.
    - exists c, t'. split; [exact Ht|]. intros ->. discriminate. }
  destruct (skip_digits s) as [|c r'] eqn:Hk; [auto|].
  destruct (Ascii.eqb_spec c ".") as [-> | Hne]; [|auto].
  destruct (starts_digit r') eqn:Hr; [|auto].
  cbn [andb] in H. injection H as <- <-.
  destruct (take_digits_nonempty r' Hr) as (c2 & t2 & Ht2 & Hc2). split.
  - apply float_unsigned_point; try apply take_digits_isdigit.
    rewrite Ht2. discriminate.
  - destruct (take_digits s) as [|c1 t1] eqn:Ht1; cbn [append].
    + exists "."%char, (take_digits r'). split; [reflexivity | discriminate].
    + exists c1, (t1 ++ String "." (take_digits r')). split; [reflexivity|].
      intros ->. pose proof (take_digits_isdigit s) as Hd. rewrite Ht1 in Hd.
      discriminate.
Qed.

(** No [ValueError]: every text captured by the pattern has a value. *)
Lemma float_total (s t : string) :
  number_text s = Some t -> exists q, float t = Some q.
Proof.
  unfold number_text. destruct (number_split s) as [[t0 r]|] eqn:Hs; [|discriminate].
  intros [= <-]. cbn [fst].
  destruct s as [|c s]; [discriminate|].
  destruct (Ascii.eqb_spec c "-") as [-> | Hne].
  - cbn [number_split] in Hs.
    destruct (unsigned_split s) as [[t' r']|] eqn:Hu; [|discriminate].
    injection Hs as <- <-.
    destruct (unsigned_split_float _ _ _ Hu) as [[q Hq] _].
    exists (- q)%Q. cbn [float]. rewrite Hq. reflexivity.
  - rewrite number_split_unsigned in Hs by exact Hne.
    destruct (unsigned_split_float _ _ _ Hs) as [[q Hq] (c' & t' & -> & Hc')].
    exists q. rewrite float_no_minus by exact Hc'. exact Hq.
Qed.

Lemma number_text_prefix (s t : string) :
  number_text s = Some t -> exists post, s = t ++ post /\ number_text (t ++ post) = Some t.
Proof.
  intros H. unfold number_text in H.
  destruct (number_split s) as [[t0 r]|] eqn:Hs; [|discriminate].
  injection H as <-. exists r.
  pose proof (number_split_app _ _ _ Hs) as E. split; [exact E|].
  rewrite <- E. unfold number_text. rewrite Hs. reflexivity.
Qed.

Lemma cons_split (c axis : ascii) (s pre post : string) :
  String c s = pre ++ String axis post ->
  (pre = "" /\ c = axis /\ s = post) \/
  (exists pre', pre = String c pre' /\ s = pre' ++ String axis post).
Proof.
  destruct pre as [|x pre]; cbn [append]; intros H; inversion H; subst.
  - left. auto.
  - right. eauto.
Qed.

(** C6, in the form that holds of the extractor.  For every line and axis
    letter, it returns the value of the number that follows the leftmost
    occurrence of the letter after which the numeric grammar accepts a number: no earlier
    occurrence of the letter is followed by a number; and it returns absent
    exactly when no occurrence of the letter is followed by a number.  An
    occurrence followed by text the grammar rejects is skipped, it is not a
    failure, and a later occurrence is then used. *)
Theorem extract_leftmost_numeric_occurrence (axis : ascii) (line : string) :
  match extract_axis axis line with
  | Some v =>
      exists pre t post : string,
        line = pre ++ String axis (t ++ post) /\
        number_text (t ++ post) = Some t /\
        float t = Some v /\
        (forall p1 p2 : string,
            pre = p1 ++ String axis p2 ->
            number_text (p2 ++ String axis (t ++ post)) = None)
  | None =>
      forall pre post : string,
        line = pre ++ String axis post -> number_text post = None
  end.
Proof.
  rewrite extract_axis_leftmost.
  induction line as [|c s IH]; cbn [extract_leftmost].
  - intros [|x pre] post H; discriminate.
  - destruct (Ascii.eqb_spec axis c) as [<- | Hne].
    + destruct (number_text s) as [t|] eqn:Hnt.
      * destruct (float_total _ _ Hnt) as [q Hq]. rewrite Hq.
        destruct (number_text_prefix _ _ Hnt) as (post & -> & Hp).
        exists "", t, post. repeat split; auto.
        intros [|x p1] p2 H; discriminate.
      * destruct (extract_leftmost axis s) as [v|].
        -- destruct IH as (pre & t & post & -> & Hp & Hf & Hearly).
           exists (String axis pre), t, post. repeat split; auto.
           intros p1 p2 H.
           destruct (cons_split _ _ _ _ _ H) as [(_ & _ & <-) | (p & -> & Hrest)].
           ++ exact Hnt.
           ++ eapply Hearly. exact Hrest.
        -- intros pre post H.
           destruct (cons_split _ _ _ _ _ H) as [(_ & _ & <-) | (p & -> & Hrest)].
           ++ exact Hnt.
           ++ apply (IH p post). exact Hrest.
    + destruct (extract_leftmost axis s) as [v|].
      * destruct IH as (pre & t & post & -> & Hp & Hf & Hearly).
        exists (String c pre), t, post. repeat split; auto.
        intros p1 p2 H.
        destruct (cons_split _ _ _ _ _ H) as [(_ & Hc & _) | (p & -> & Hrest)].
        -- congruence.
        -- eapply Hearly. exact Hrest.
      * intros pre post H.
        destruct (cons_split _ _ _ _ _ H) as [(_ & Hc & _) | (p & -> & Hrest)].
        -- congruence.
        -- apply (IH p post). exact Hrest.
Qed.

(** C6, as stated, fails: on this line the first [E] is followed by text
    the grammar rejects, and the extractor still returns the value after a
    later [E]. *)
Lemma first_occurrence_only_counterexample :
  let line := ln "G1 X10 Y5 ; Extra E0.5" in
  after_first "E" line = Some (ln "xtra E0.5") /\
  number_text (ln "xtra E0.5") = None /\
  extract_first_only "E" line = None /\
  extract_axis "E" line = Some (5 # 10)%Q.
Proof. vm_compute. repeat split; reflexivity. Qed.

(** *** Stripping a line does not change what is extracted *)

Lemma rstrip_nonspace (c : ascii) (s : string) :
  isspace c = false -> rstrip (String c s) = String c (rstrip s).
Proof. intros H. cbn [rstrip]. rewrite H. destruct (rstrip s); reflexivity. Qed.

Lemma rstrip_cases (c : ascii) (s : string) :
  (rstrip (String c s) = "" /\ isspace c = true /\ rstrip s = "") \/
  rstrip (String c s) = String c (rstrip s).
Proof.
  cbn [rstrip]. destruct (rstrip s); [|now right].
  destruct (isspace c); [left | right]; auto.
Qed.

Lemma digit_not_space (c : ascii) : isdigit c = true -> isspace c = false.
Proof. ascii_cases c; vm_compute; congruence. Qed.

Lemma take_digits_rstrip (s : string) : take_digits (rstrip s) = take_digits s.
Proof.
  induction s as [|c s IH]; [reflexivity|].
  destruct (isdigit c) eqn:Hd.
  - rewrite rstrip_nonspace by (apply digit_not_space, Hd).
    cbn [take_digits]. rewrite Hd, IH. reflexivity.
  - cbn [take_digits]. rewrite Hd.
    destruct (rstrip_cases c s) as [(-> & _) | ->]; [reflexivity|].
    cbn [take_digits]. rewrite Hd. reflexivity.
Qed.

Lemma skip_digits_rstrip (s : string) : skip_digits (rstrip s) = rstrip (skip_digits s).
Proof.
  induction s as [|c s IH]; [reflexivity|].
  destruct (isdigit c) eqn:Hd.
  - rewrite rstrip_nonspace by (apply digit_not_space, Hd).
    cbn [skip_digits]. rewrite Hd, IH. reflexivity.
  - cbn [skip_digits]. rewrite Hd.
    destruct (rstrip_cases c s) as [(-> & _) | ->]; [reflexivity|].
    cbn [skip_digits]. rewrite Hd. reflexivity.
Qed.

Lemma starts_digit_rstrip (s : string) : starts_digit (rstrip s) = starts_digit s.
Proof.
  destruct s as [|c s]; [reflexivity|].
  destruct (isdigit c) eqn:Hd.
  - rewrite rstrip_nonspace by (apply digit_not_space, Hd). reflexivity.
  - cbn [starts_digit]. rewrite Hd.
    destruct (rstrip_cases c s) as [(-> & _) | ->]; [reflexivity|].
    cbn [starts_digit]. exact Hd.
Qed.

Lemma unsigned_split_rstrip (s : string) :
  unsigned_split (rstrip s) = option_map strip_rest (unsigned_split s).
Proof.
  unfold unsigned_split.
  rewrite take_digits_rstrip, skip_digits_rstrip, starts_digit_rstrip.
  assert (Hwhole :
            (if starts_digit s
             then Some (take_digits s, rstrip (skip_digits s)) else None)
            = option_map strip_rest
                (if starts_digit s
                 then Some (take_digits s, skip_digits s) else None)).
  { destruct (starts_digit s); reflexivity. }
  destruct (skip_digits s) as [|c r]; [exact Hwhole|].
  destruct (Ascii.eqb_spec c ".") as [-> | Hne].
  - rewrite rstrip_nonspace in Hwhole |- * by reflexivity.
    rewrite Ascii.eqb_refl, starts_digit_rstrip. cbn [andb].
    destruct (starts_digit r); [|exact Hwhole].
    rewrite take_digits_rstrip, skip_digits_rstrip. reflexivity.
  - assert (Hc : (c =? ".")%char = false) by (apply Ascii.eqb_neq, Hne).
    cbn [andb].
    destruct (rstrip_cases c r) as [(E & _) | E]; rewrite E in Hwhole |- *;
      [exact Hwhole|].
    rewrite Hc. cbn [andb]. exact Hwhole.
Qed.

Lemma number_text_rstrip (s : string) : number_text (rstrip s) = number_text s.
Proof.
  unfold number_text.
  assert (H : number_split (rstrip s) = option_map strip_rest (number_split s)).
  { destruct s as [|c s]; [reflexivity|].
    destruct (Ascii.eqb_spec c "-") as [-> | Hne].
    - rewrite rstrip_nonspace by reflexivity. cbn [number_split].
      rewrite unsigned_split_rstrip.
      destruct (unsigned_split s) as [[t r]|]; reflexivity.
    - rewrite (number_split_unsigned c s Hne), <- unsigned_split_rstrip.
      destruct (rstrip_cases c s) as [(-> & _) | ->]; [reflexivity|].
      apply number_split_unsigned, Hne. }
  rewrite H. destruct (number_split s) as [[t r]|]; reflexivity.
Qed.

Lemma extract_leftmost_rstrip (axis : ascii) (s : string) :
  isspace axis = false ->
  extract_leftmost axis (rstrip s) = extract_leftmost axis s.
Proof.
  intros Ha. induction s as [|c s IH]; [reflexivity|].
  destruct (rstrip_cases c s) as [(-> & Hc & Hs) | ->].
  - cbn [extract_leftmost].
    assert (Hne : (axis =? c)%char = false).
    { apply Ascii.eqb_neq. intros ->. congruence. }
    rewrite Hne, <- IH, Hs. reflexivity.
  - cbn [extract_leftmost]. rewrite number_text_rstrip, IH. reflexivity.
Qed.

Lemma extract_leftmost_lstrip (axis : ascii) (s : string) :
  isspace axis = false ->
  extract_leftmost axis (lstrip s) = extract_leftmost axis s.
Proof.
  intros Ha. induction s as [|c s IH]; [reflexivity|].
  cbn [lstrip]. destruct (isspace c) eqn:Hc; [|reflexivity].
  cbn [extract_leftmost].
  assert (Hne : (axis =? c)%char = false).
  { apply Ascii.eqb_neq. intros ->. congruence. }
  rewrite Hne. exact IH.
Qed.

Lemma extract_axis_strip (axis : ascii) (line : string) :
  isspace axis = false ->
  extract_axis axis (strip line) = extract_axis axis line.
Proof.
  intros Ha. rewrite !extract_axis_leftmost. unfold strip.
  rewrite extract_leftmost_rstrip, extract_leftmost_lstrip by exact Ha.
  reflexivity.
Qed.

(** The loop extracts from the stripped line in one branch and from the
    line in the other: the coordinates are the same. *)
Lemma extract_coords_strip (line : string) :
  extract_coords (strip line) = extract_coords line.
Proof.
  unfold extract_coords. rewrite !extract_axis_strip by reflexivity. reflexivity.
Qed.

End ReFacts.

(** ** Properties of the loop body *)

Module PulseFacts.

Import Text Re Num Pulse TextFacts ReFacts.

Local Open Scope Q_scope.

(** *** Rational arithmetic *)

Lemma trigger_pos : 0 < TRIGGER_DISTANCE_MM.
Proof. reflexivity. Qed.

Lemma Qfloor_unique (x : Q) (n : Z) :
  inject_Z n <= x -> x < inject_Z n + 1 -> Qfloor x = n.
Proof.
  intros Hlo Hhi.
  pose proof (Qfloor_le x) as Hf.
  pose proof (Qlt_floor x) as Hc.
  rewrite inject_Z_plus in Hc.
  assert (H1 : inject_Z (Qfloor x) < inject_Z (n + 1)).
  { rewrite inject_Z_plus. eapply Qle_lt_trans; eauto. }
  assert (H2 : inject_Z n < inject_Z (Qfloor x + 1)).
  { rewrite inject_Z_plus. eapply Qle_lt_trans; eauto. }
  rewrite <- Zlt_Qlt in H1, H2. lia.
Qed.

Lemma Qle_bool_false (x y : Q) : Qle_bool x y = false <-> y < x.
Proof.
  split; intros H.
  - apply Qnot_le_lt. intros Hle. apply Qle_bool_iff in Hle. congruence.
  - destruct (Qle_bool x y) eqn:Hb; auto.
    apply Qle_bool_iff in Hb. exfalso. eapply Qlt_not_le; eauto.
Qed.

(** The count of the pulse loop is the floor of the quotient, and brackets
    the accumulator between two consecutive multiples of the threshold. *)
Lemma crossings_bracket (acc : Q) :
  0 <= acc ->
  (0 <= crossings acc)%Z /\
  crossings acc = Qfloor (acc / TRIGGER_DISTANCE_MM) /\
  inject_Z (crossings acc) * TRIGGER_DISTANCE_MM <= acc /\
  acc < (inject_Z (crossings acc) + 1) * TRIGGER_DISTANCE_MM.
Proof.
  intros Hacc. pose proof trigger_pos as HT.
  set (T := TRIGGER_DISTANCE_MM) in *.
  assert (Hq : acc / T * T == acc).
  { apply Qdiv_mult_l. intros H0. apply (Qlt_not_eq _ _ HT). symmetry. exact H0. }
  pose proof (Qfloor_le (acc / T)) as Hf.
  pose proof (Qlt_floor (acc / T)) as Hc.
  rewrite inject_Z_plus in Hc.
  assert (Hlo : inject_Z (Qfloor (acc / T)) * T <= acc).
  { rewrite <- Hq at 2. apply Qmult_le_compat_r; auto. apply Qlt_le_weak; auto. }
  assert (Hhi : acc < (inject_Z (Qfloor (acc / T)) + 1) * T).
  { rewrite <- Hq at 1. apply Qmult_lt_compat_r; auto. }
  assert (Hnn : (0 <= Qfloor (acc / T))%Z).
  { change 0%Z with (Qfloor 0). apply Qfloor_resp_le.
    apply Qle_shift_div_l; [exact HT|]. rewrite Qmult_0_l. exact Hacc. }
  unfold crossings. fold T.
  destruct (Qle_bool T acc) eqn:Hb.
  - repeat split; auto.
  - apply Qle_bool_false in Hb.
    assert (Hz : Qfloor (acc / T) = 0%Z).
    { apply Qfloor_unique.
      - apply Qle_shift_div_l; [exact HT|]. rewrite Qmult_0_l. exact Hacc.
      - apply Qlt_shift_div_r; [exact HT|].
        rewrite Qplus_0_l, Qmult_1_l. exact Hb. }
    rewrite Hz in *. repeat split; auto; lia.
Qed.


(** *** The pulse loop *)

Lemma pulse_loop (mt : string) (segs : list position) :
  forall (em : emitted) (acc : Q),
    fold_left (pulse_iteration mt) segs (em, acc) =
    ({| appended := appended em ++ flat_map (pulse_lines mt) segs;
        printed := printed em ++ map triggered_msg segs |},
     fold_left (fun a _ => a - TRIGGER_DISTANCE_MM) segs acc).
Proof.
  induction segs as [|seg segs IH]; intros em acc.
  - simpl. rewrite !app_nil_r. destruct em; reflexivity.
  - cbn [fold_left flat_map map]. unfold pulse_iteration at 2.
    rewrite IH. cbn [appended printed].
    rewrite <- !app_assoc. reflexivity.
Qed.

Lemma loop_accumulator {A : Type} (segs : list A) (acc : Q) :
  fold_left (fun a _ => a - TRIGGER_DISTANCE_MM) segs acc ==
  acc - inject_Z (Z.of_nat (List.length segs)) * TRIGGER_DISTANCE_MM.
Proof.
  revert acc. induction segs as [|x segs IH]; intros acc.
  - simpl. unfold inject_Z. ring.
  - cbn [fold_left]. rewrite IH.
    change (List.length (x :: segs)) with (S (List.length segs)).
    rewrite Nat2Z.inj_succ. unfold Z.succ. rewrite inject_Z_plus.
    change (inject_Z 1) with 1. ring.
Qed.

Lemma range_length (a b : Z) : List.length (range a b) = Z.to_nat (b - a).
Proof. unfold range. rewrite length_map, length_seq. reflexivity. Qed.

Lemma segment_move_length (s e : position) (n : Z) :
  List.length (segment_move s e n) = Z.to_nat n.
Proof.
  unfold segment_move. rewrite length_map, range_length.
  f_equal. lia.
Qed.

Lemma segment_move_none (s e : position) : segment_move s e 0 = [].
Proof. reflexivity. Qed.

(** *** The branches of the loop body *)

Section Branches.

Variable hypot : Q -> Q -> Q.

Lemma process_line_thermal (st : tracker) (line : string) :
  is_thermal line = true -> process_line hypot st line = (st, nothing).
Proof.
  unfold is_thermal, process_line. intros H.
  destruct (re_match temperature_re (strip line)); [reflexivity | discriminate].
Qed.

Lemma process_line_plain (st : tracker) (line : string) :
  is_thermal line = false ->
  is_motion line && contains "E" (strip line) = false ->
  process_line hypot st line =
  ({| last_pos := update (last_pos st) (extract_coords line);
      accumulated_distance := accumulated_distance st |},
   {| appended := [line]; printed := [] |}).
Proof.
  unfold is_thermal, is_motion, process_line. intros Ht Hp.
  destruct (re_match temperature_re (strip line)); [discriminate|].
  rewrite <- negb_andb, Hp. reflexivity.
Qed.

Lemma process_line_idle (st : tracker) (line : string) :
  is_tracked line = true ->
  is_depositing (last_pos st) line = false ->
  process_line hypot st line =
  ({| last_pos := move_end (last_pos st) line;
      accumulated_distance := accumulated_distance st |},
   {| appended := [line]; printed := [] |}).
Proof.
  unfold is_depositing. intros Ht Hd. rewrite Ht in Hd. cbn [andb] in Hd.
  unfold is_tracked, is_thermal, is_motion in Ht.
  unfold process_line, move_end in *.
  destruct (re_match temperature_re (strip line)); [discriminate|].
  cbn [negb andb] in Ht. rewrite <- negb_andb, Ht. cbn [negb].
  rewrite Hd. reflexivity.
Qed.

Lemma process_line_depositing (st : tracker) (line : string) :
  is_depositing (last_pos st) line = true ->
  let acc := accumulated_distance st + displacement hypot (last_pos st) line in
  let end_ := move_end (last_pos st) line in
  let segs := segment_move (last_pos st) end_ (crossings acc) in
  process_line hypot st line =
  ({| last_pos := end_;
      accumulated_distance :=
        fold_left (fun a _ => a - TRIGGER_DISTANCE_MM) segs acc |},
   {| appended := flat_map (pulse_lines (move_type_of line)) segs
                    ++ [move_line (move_type_of line) end_];
      printed := map triggered_msg segs |}).
Proof.
  unfold is_depositing. intros Hd. apply andb_prop in Hd as [Ht Hd].
  unfold is_tracked, is_thermal, is_motion in Ht.
  unfold process_line, displacement, move_end, move_type_of, crossings in *.
  destruct (re_match temperature_re (strip line)); [discriminate|].
  cbn [negb andb] in Ht. rewrite <- negb_andb, Ht. cbn [negb].
  rewrite Hd.
  destruct (Qle_bool TRIGGER_DISTANCE_MM _) eqn:Hb.
  - rewrite pulse_loop. reflexivity.
  - reflexivity.
Qed.

(** Every line falls in exactly one of the four branches. *)
Lemma branch_cases (pos : position) (line : string) :
  is_thermal line = true \/
  (is_thermal line = false /\ is_motion line && contains "E" (strip line) = false) \/
  (is_tracked line = true /\ is_depositing pos line = false) \/
  is_depositing pos line = true.
Proof.
  unfold is_depositing, is_tracked.
  destruct (is_thermal line); [now left|].
  destruct (is_motion line && contains "E" (strip line)) eqn:Hm.
  - simpl. rewrite Hm. simpl.
    destruct (negb _); [now right; right; right | now right; right; left].
  - right; left. split; reflexivity.
Qed.

Lemma process_lines_cons (st : tracker) (line : string) (rest : list string) :
  process_lines hypot st (line :: rest) =
  (fst (process_lines hypot (fst (process_line hypot st line)) rest),
   {| appended := appended (snd (process_line hypot st line))
                    ++ appended (snd (process_lines hypot
                                        (fst (process_line hypot st line)) rest));
      printed := printed (snd (process_line hypot st line))
                    ++ printed (snd (process_lines hypot
                                       (fst (process_line hypot st line)) rest)) |}).
Proof.
  cbn [process_lines].
  destruct (process_line hypot st line) as [st1 em1]. cbn [fst snd].
  destruct (process_lines hypot st1 rest) as [st2 em2]. reflexivity.
Qed.


(** *** What a depositing move appends *)

Lemma flat_map_over_map {A B C : Type} (g : B -> list C) (f : A -> B) (l : list A) :
  flat_map g (map f l) = flat_map (fun x => g (f x)) l.
Proof. induction l as [|x l IH]; simpl; [reflexivity | now rewrite IH]. Qed.



(** The lines of the pulse loop, spelled out: for [i] from 1 to the count
    [n], the interpolated move and the three fan lines. *)
Lemma pulse_lines_interpolated (mt : string) (start end_ : position) (n : Z) :
  flat_map (pulse_lines mt) (segment_move start end_ n) =
  flat_map
    (fun i =>
       let t := inject_Z i / inject_Z n in
       [ (mt ++ " X" ++ format_f 5 (pX start + (pX end_ - pX start) * t)
             ++ " Y" ++ format_f 5 (pY start + (pY end_ - pY start) * t)
             ++ " E" ++ format_f 5 (pE start + (pE end_ - pE start) * t)
             ++ nl)%string;
         fan_on_line; dwell_line; fan_off_line ])
    (range 1 (n + 1)).
Proof. unfold segment_move. rewrite flat_map_over_map. reflexivity. Qed.

(** The whole of what a depositing move appends. *)
Lemma pulse_emission (st : tracker) (line : string) :
  is_depositing (last_pos st) line = true ->
  let start := last_pos st in
  let end_ := move_end start line in
  let mt := move_type_of line in
  let n := crossings (accumulated_distance st + displacement hypot start line) in
  appended (snd (process_line hypot st line)) =
  flat_map
    (fun i =>
       let t := inject_Z i / inject_Z n in
       [ (mt ++ " X" ++ format_f 5 (pX start + (pX end_ - pX start) * t)
             ++ " Y" ++ format_f 5 (pY start + (pY end_ - pY start) * t)
             ++ " E" ++ format_f 5 (pE start + (pE end_ - pE start) * t)
             ++ nl)%string;
         "M106 S255 ; ON" ++ nl; "G4 P200 ; Wait" ++ nl; "M107 ; OFF" ++ nl ]%string)
    (range 1 (n + 1))
  ++ [move_line mt end_].
Proof.
  intros Hd start end_ mt n.
  rewrite (process_line_depositing st line Hd). cbn [snd appended].
  fold start end_ mt n. rewrite pulse_lines_interpolated. reflexivity.
Qed.

(** C3.  Mandatory final end-move: a depositing move appends the lines of
    its pulses, four per crossing, and after them one motion line to its end
    position; with no crossing that one line is all it appends. *)
Theorem final_end_move (st : tracker) (line : string) :
  is_depositing (last_pos st) line = true ->
  let end_ := move_end (last_pos st) line in
  let n := crossings (accumulated_distance st
                      + displacement hypot (last_pos st) line) in
  let segs := segment_move (last_pos st) end_ n in
  appended (snd (process_line hypot st line))
  = flat_map (pulse_lines (move_type_of line)) segs
      ++ [move_line (move_type_of line) end_] /\
  List.length segs = Z.to_nat n /\
  (n = 0%Z ->
   appended (snd (process_line hypot st line))
   = [move_line (move_type_of line) end_]).
Proof.
  intros Hd end_ n segs.
  rewrite (process_line_depositing st line Hd). cbn [snd appended].
  fold end_ n segs. split; [reflexivity|]. split.
  - apply segment_move_length.
  - intros Hn. unfold segs. rewrite Hn. reflexivity.
Qed.

(** *** Only X, Y and E are written *)

Lemma contains_char_absent (a : ascii) (s : string) :
  all_chars (fun c => negb (c =? a)%char) s = true ->
  contains (String a "") s = false.
Proof.
  unfold all_chars.
  induction s as [|c s IH]; cbn [list_ascii_of_string forallb contains prefix];
    [reflexivity|].
  intros H. apply andb_prop in H as [Hc Hs]. rewrite (IH Hs), orb_false_r.
  destruct (ascii_dec a c) as [->|]; [|reflexivity].
  rewrite Ascii.eqb_refl in Hc. discriminate.
Qed.

Lemma numeric_is_plain (c : ascii) :
  numeric_char c = true -> plain_move_char c = true.
Proof. ascii_cases c; vm_compute; auto. Qed.

Lemma move_type_cases (line : string) :
  move_type_of line = "G0"%string \/ move_type_of line = "G1"%string.
Proof. unfold move_type_of. destruct (contains "G1" (strip line)); auto. Qed.

Lemma move_line_plain (mt : string) (p : position) :
  mt = "G0"%string \/ mt = "G1"%string ->
  all_chars plain_move_char (move_line mt p) = true.
Proof.
  intros Hmt. unfold move_line.
  assert (Hf : forall x, all_chars plain_move_char (format_f 5 x) = true).
  { intros x. eapply all_chars_weaken; [apply numeric_is_plain|].
    apply format_f_numeric. }
  rewrite !all_chars_app, !Hf. destruct Hmt as [-> | ->]; reflexivity.
Qed.

Lemma move_line_no_feed_no_comment (mt : string) (p : position) :
  mt = "G0"%string \/ mt = "G1"%string ->
  contains "F" (move_line mt p) = false /\ contains ";" (move_line mt p) = false.
Proof.
  intros Hmt. pose proof (move_line_plain mt p Hmt) as H.
  split; apply contains_char_absent; revert H; apply all_chars_weaken;
    intros c; unfold plain_move_char; intros Hc; apply andb_prop in Hc; tauto.
Qed.

Lemma move_line_xye (mt : string) (p q : position) :
  pX p = pX q -> pY p = pY q -> pE p = pE q -> move_line mt p = move_line mt q.
Proof. unfold move_line. intros -> -> ->. reflexivity. Qed.

Lemma update_same_but_feed (p q : position) (c : coords) :
  pX p = pX q -> pY p = pY q -> pE p = pE q ->
  pX (update p c) = pX (update q c) /\
  pY (update p c) = pY (update q c) /\
  pE (update p c) = pE (update q c).
Proof. unfold update. cbn [pX pY pE]. intros -> -> ->. auto. Qed.

(** C9.  A depositing move is rewritten into lines that carry the command
    code and X, Y, E only: each appended line is one of the three fan lines
    or a motion line made of the code and the three formatted fields, with
    no F parameter and no comment; and the feed rate held by the tracker
    (hence the one the segmenter puts on each intermediate point) has no
    influence on what is appended. *)
Theorem rewritten_moves_carry_xye_only (st : tracker) (line : string) :
  is_depositing (last_pos st) line = true ->
  Forall
    (fun l : string =>
       l = fan_on_line \/ l = dwell_line \/ l = fan_off_line \/
       ((exists x y e : Q,
            l = (move_type_of line ++ " X" ++ format_f 5 x ++ " Y" ++ format_f 5 y
                   ++ " E" ++ format_f 5 e ++ nl)%string) /\
        contains "F" l = false /\ contains ";" l = false))
    (appended (snd (process_line hypot st line))) /\
  (forall st' : tracker,
      same_but_feed st st' ->
      appended (snd (process_line hypot st' line))
      = appended (snd (process_line hypot st line))).
Proof.
  intros Hd. split.
  - rewrite (process_line_depositing st line Hd). cbn [snd appended].
    pose proof (move_type_cases line) as Hmt.
    assert (Hmove : forall p,
               (exists x y e : Q,
                   move_line (move_type_of line) p
                   = (move_type_of line ++ " X" ++ format_f 5 x ++ " Y"
                        ++ format_f 5 y ++ " E" ++ format_f 5 e ++ nl)%string) /\
               contains "F" (move_line (move_type_of line) p) = false /\
               contains ";" (move_line (move_type_of line) p) = false).
    { intros p. split; [|apply move_line_no_feed_no_comment, Hmt].
      exists (pX p), (pY p), (pE p). reflexivity. }
    apply Forall_app. split.
    + apply Forall_flat_map, Forall_forall. intros seg _.
      unfold pulse_lines.
      apply Forall_cons; [right; right; right; apply Hmove|].
      apply Forall_cons; [left; reflexivity|].
      apply Forall_cons; [right; left; reflexivity|].
      apply Forall_cons; [right; right; left; reflexivity|].
      apply Forall_nil.
    + apply Forall_cons; [right; right; right; apply Hmove | apply Forall_nil].
  - intros st' (HX & HY & HE & HA).
    assert (Hd' : is_depositing (last_pos st') line = true).
    { revert Hd. unfold is_depositing, move_end.
      destruct (update_same_but_feed _ _ (extract_coords (strip line)) HX HY HE)
        as (_ & _ & HE').
      rewrite HE, HE'. auto. }
    rewrite (process_line_depositing st line Hd),
            (process_line_depositing st' line Hd').
    cbn [snd appended].
    destruct (update_same_but_feed _ _ (extract_coords (strip line)) HX HY HE)
      as (HX' & HY' & HE').
    assert (Hdisp : displacement hypot (last_pos st') line
                    = displacement hypot (last_pos st) line).
    { unfold displacement, move_end. rewrite HX, HY, HX', HY'. reflexivity. }
    rewrite Hdisp, <- HA. f_equal.
    + unfold segment_move. rewrite !flat_map_over_map.
      apply flat_map_ext. intros i. unfold pulse_lines. f_equal.
      apply move_line_xye; cbn [pX pY pE]; unfold move_end;
        rewrite ?HX, ?HY, ?HE, ?HX', ?HY', ?HE'; reflexivity.
    + f_equal. apply move_line_xye; unfold move_end; auto.
Qed.

End Branches.

(** *** Classification *)

Lemma nocase_not_space (a c : ascii) :
  eq_nocase a c = true -> isspace a = false -> isspace c = false.
Proof.
  ascii_cases c; try reflexivity;
    ascii_cases a; vm_compute; congruence.
Qed.

(** The thermal pattern matches exactly the texts that begin with one of
    the two codes, letter case apart. *)
Lemma thermal_match (s : string) :
  (match re_match temperature_re s with Some _ => true | None => false end)
  = iprefix "M104" s || iprefix "M109" s.
Proof.
  unfold re_match, temperature_re.
  destruct s as [|c1 [|c2 [|c3 [|c4 r]]]];
    repeat first
      [ progress cbn [matches ilit lit iprefix flat_map app andb orb]
      | match goal with
        | |- context [eq_nocase ?a ?c] => destruct (eq_nocase a c)
        end ];
    reflexivity.
Qed.

Lemma is_thermal_iprefix (line : string) :
  is_thermal line = iprefix "M104" (strip line) || iprefix "M109" (strip line).
Proof. unfold is_thermal. apply thermal_match. Qed.

(** Stripping keeps a leading token of four characters that are not
    whitespace. *)
Lemma iprefix_strip (tok line : string) :
  length tok = 4%nat ->
  all_chars (fun a => negb (isspace a)) tok = true ->
  iprefix tok line = true -> iprefix tok (strip line) = true.
Proof.
  destruct tok as [|a1 [|a2 [|a3 [|a4 [|a5 tok]]]]]; try discriminate.
  intros _ Htok.
  destruct line as [|c1 [|c2 [|c3 [|c4 r]]]]; cbn [iprefix];
    rewrite ?andb_false_r; try discriminate.
  unfold all_chars in Htok. cbn [list_ascii_of_string forallb] in Htok.
  apply andb_prop in Htok as [Ha1 Htok]. apply andb_prop in Htok as [Ha2 Htok].
  apply andb_prop in Htok as [Ha3 Htok]. apply andb_prop in Htok as [Ha4 _].
  apply negb_true_iff in Ha1, Ha2, Ha3, Ha4.
  intros Hp.
  apply andb_prop in Hp as [Hc1 Hp]. apply andb_prop in Hp as [Hc2 Hp].
  apply andb_prop in Hp as [Hc3 Hp]. apply andb_prop in Hp as [Hc4 _].
  pose proof (nocase_not_space _ _ Hc1 Ha1) as H1.
  pose proof (nocase_not_space _ _ Hc2 Ha2) as H2.
  pose proof (nocase_not_space _ _ Hc3 Ha3) as H3.
  pose proof (nocase_not_space _ _ Hc4 Ha4) as H4.
  unfold strip. cbn [lstrip]. rewrite H1.
  rewrite !rstrip_nonspace by assumption. cbn [iprefix].
  rewrite Hc1, Hc2, Hc3, Hc4. reflexivity.
Qed.

Lemma motion_not_thermal (line : string) :
  is_motion line = true -> is_thermal line = false.
Proof.
  unfold is_motion, is_thermal, startswith.
  destruct (strip line) as [|c s]; [discriminate|].
  cbn [prefix]. destruct (ascii_dec "G" c) as [<- | Hne]; [reflexivity | discriminate].
Qed.

Section Frames.

Variable hypot : Q -> Q -> Q.

(** C8.  Non-extruding motion frame property: a motion line whose E, once
    its coordinates are merged, is not above the E held before is copied to
    the output as it is, prints no pulse, leaves the accumulator as it was,
    and its coordinates are merged into the tracked position. *)
Theorem non_extruding_motion_frame (st : tracker) (line : string) :
  is_motion line = true ->
  (pE (update (last_pos st) (extract_coords line)) <= pE (last_pos st))%Q ->
  process_line hypot st line =
  ({| last_pos := update (last_pos st) (extract_coords line);
      accumulated_distance := accumulated_distance st |},
   {| appended := [line]; printed := [] |}).
Proof.
  intros Hm HE.
  pose proof (motion_not_thermal line Hm) as Ht.
  destruct (contains "E" (strip line)) eqn:Hc.
  - assert (Htr : is_tracked line = true).
    { unfold is_tracked. rewrite Ht, Hm, Hc. reflexivity. }
    assert (Hd : is_depositing (last_pos st) line = false).
    { unfold is_depositing, move_end. rewrite Htr, extract_coords_strip.
      apply Qle_bool_iff in HE. rewrite HE. reflexivity. }
    rewrite (process_line_idle hypot st line Htr Hd).
    unfold move_end. rewrite extract_coords_strip. reflexivity.
  - apply process_line_plain; [exact Ht|]. rewrite Hc. apply andb_false_r.
Qed.

(** C10.  A dropped thermal-control line never updates the tracker: the
    position, on every axis, and the accumulator are after the line what
    they were before it, whatever axis values the line carries. *)
Theorem thermal_lines_leave_tracker (st : tracker) (line : string) :
  is_thermal line = true ->
  last_pos (fst (process_line hypot st line)) = last_pos st /\
  accumulated_distance (fst (process_line hypot st line))
  = accumulated_distance st.
Proof.
  intros Ht. rewrite (process_line_thermal hypot st line Ht).
  split; reflexivity.
Qed.

Lemma process_lines_kept (lines : list string) :
  forall st, process_lines hypot st (kept lines) = process_lines hypot st lines.
Proof.
  induction lines as [|line rest IH]; intros st; [reflexivity|].
  unfold kept in *. cbn [filter].
  destruct (is_thermal line) eqn:Ht; cbn [negb].
  - rewrite (process_lines_cons hypot st line rest).
    rewrite (process_line_thermal hypot st line Ht). cbn [fst snd nothing appended printed app].
    rewrite IH. destruct (process_lines hypot st rest) as [st2 [o p]]. reflexivity.
  - rewrite !process_lines_cons, IH. reflexivity.
Qed.

Lemma process_line_image (st : tracker) (line : string) :
  is_thermal line = false ->
  line_image line (appended (snd (process_line hypot st line))).
Proof.
  intros Ht.
  destruct (branch_cases (last_pos st) line) as [H | [[H1 H2] | [[H1 H2] | H]]].
  - congruence.
  - rewrite process_line_plain by assumption. left. reflexivity.
  - rewrite process_line_idle by assumption. left. reflexivity.
  - rewrite (process_line_depositing hypot st line H). right. split.
    + unfold is_depositing in H. apply andb_prop in H. tauto.
    + eexists _, _. reflexivity.
Qed.

Lemma process_lines_images (lines : list string) :
  forall st, exists chunks : list (list string),
    Forall2 line_image (kept lines) chunks /\
    appended (snd (process_lines hypot st lines)) = List.concat chunks.
Proof.
  induction lines as [|line rest IH]; intros st.
  - exists []. split; [constructor | reflexivity].
  - rewrite process_lines_cons. cbn [snd appended].
    destruct (IH (fst (process_line hypot st line))) as (chunks & HF & Hc).
    unfold kept in *. cbn [filter].
    destruct (is_thermal line) eqn:Ht; cbn [negb].
    + exists chunks. split; [exact HF|].
      rewrite (process_line_thermal hypot st line Ht) in Hc |- *. exact Hc.
    + exists (appended (snd (process_line hypot st line)) :: chunks). split.
      * constructor; [apply process_line_image, Ht | exact HF].
      * cbn [List.concat]. rewrite Hc. reflexivity.
Qed.

(** C7.  Thermal elision: a line that begins with M104 or M109, letter case
    apart (on the line as it is, or once the whitespace around it is
    stripped, which is how the loop classifies it), appends nothing; a file
    and the same file without its thermal lines are rewritten alike; and the
    output is made, in the order of the input, of what stands for each line
    that is not dropped: the line itself or its rewriting as a move. *)
Theorem thermal_elision (lines : list string) :
  (forall (st : tracker) (line : string),
      iprefix "M104" line || iprefix "M109" line = true
      \/ iprefix "M104" (strip line) || iprefix "M109" (strip line) = true ->
      process_line hypot st line = (st, nothing)) /\
  process_gcode hypot (kept lines) = process_gcode hypot lines /\
  (exists chunks : list (list string),
      Forall2 line_image (kept lines) chunks /\
      process_gcode hypot lines = List.concat chunks).
Proof.
  split; [|split].
  - intros st line H. apply process_line_thermal.
    rewrite is_thermal_iprefix. destruct H as [H | H]; [|exact H].
    apply orb_true_iff in H. apply orb_true_iff.
    destruct H as [H | H]; [left | right];
      (apply iprefix_strip; [reflexivity | reflexivity | exact H]).
  - unfold process_gcode. rewrite process_lines_kept. reflexivity.
  - apply process_lines_images.
Qed.

(** *** Pulses in the output *)

Lemma move_line_not_fan_on (mt : string) (p : position) :
  mt = "G0"%string \/ mt = "G1"%string -> move_line mt p <> fan_on_line.
Proof. intros [-> | ->]; discriminate. Qed.

Lemma pulse_lines_fan_on (line : string) (segs : list position) :
  count_occ string_dec (flat_map (pulse_lines (move_type_of line)) segs) fan_on_line
  = List.length segs.
Proof.
  induction segs as [|seg segs IH]; [reflexivity|].
  cbn [flat_map List.length]. rewrite count_occ_app, IH. unfold pulse_lines.
  rewrite count_occ_cons_neq
    by (apply move_line_not_fan_on, move_type_cases).
  reflexivity.
Qed.

(** Each pulse adds one fan-on line to the output; the other fan-on lines
    of the output are those of the input, copied. *)
Lemma fan_on_count (lines : list string) :
  forall st,
    count_occ string_dec (appended (snd (process_lines hypot st lines))) fan_on_line
    = (count_occ string_dec lines fan_on_line
       + List.length (printed (snd (process_lines hypot st lines))))%nat.
Proof.
  induction lines as [|line rest IH]; intros st; [reflexivity|].
  rewrite process_lines_cons. cbn [snd appended printed].
  rewrite count_occ_app, length_app, IH.
  assert (Hline :
            count_occ string_dec (appended (snd (process_line hypot st line))) fan_on_line
            = ((if string_dec line fan_on_line then 1 else 0)
               + List.length (printed (snd (process_line hypot st line))))%nat).
  { destruct (branch_cases (last_pos st) line) as [H | [[H1 H2] | [[H1 H2] | H]]].
    - rewrite process_line_thermal by exact H.
      destruct (string_dec line fan_on_line) as [-> | _]; [discriminate | reflexivity].
    - rewrite process_line_plain by assumption. cbn [snd appended printed count_occ].
      destruct (string_dec line fan_on_line); reflexivity.
    - rewrite process_line_idle by assumption. cbn [snd appended printed count_occ].
      destruct (string_dec line fan_on_line); reflexivity.
    - rewrite (process_line_depositing hypot st line H). cbn [snd appended printed].
      rewrite count_occ_app, pulse_lines_fan_on, length_map.
      rewrite count_occ_cons_neq
        by (apply move_line_not_fan_on, move_type_cases).
      destruct (string_dec line fan_on_line) as [-> | _]; [discriminate|].
      cbn [count_occ]. lia. }
  rewrite Hline. cbn [count_occ].
  destruct (string_dec line fan_on_line) as [-> | Hne].
  - destruct (string_dec fan_on_line fan_on_line); [lia | contradiction].
  - destruct (string_dec line fan_on_line); [contradiction | lia].
Qed.

End Frames.

(** *** The accumulator along a run *)

Section Renewal.

Variable hypot : Q -> Q -> Q.
Hypothesis hypot_nonneg : forall x y : Q, 0 <= hypot x y.

Lemma displacement_nonneg (pos : position) (line : string) :
  0 <= displacement hypot pos line.
Proof. unfold displacement, distance_xy. apply hypot_nonneg. Qed.

(** A depositing move: the accumulator after the line, the pulses printed. *)
Lemma depositing_step (st : tracker) (line : string) :
  in_range st ->
  is_depositing (last_pos st) line = true ->
  let acc := accumulated_distance st + displacement hypot (last_pos st) line in
  let r := process_line hypot st line in
  last_pos (fst r) = move_end (last_pos st) line /\
  Z.of_nat (List.length (printed (snd r))) = crossings acc /\
  accumulated_distance (fst r)
    == acc - inject_Z (crossings acc) * TRIGGER_DISTANCE_MM /\
  in_range (fst r).
Proof.
  intros [Hlo Hhi] Hd acc r.
  pose proof (displacement_nonneg (last_pos st) line) as Hdn.
  assert (Hacc : 0 <= acc) by (unfold acc; lra).
  destruct (crossings_bracket acc Hacc) as (Hc0 & _ & Hclo & Hchi).
  unfold r. rewrite (process_line_depositing hypot st line Hd).
  cbn [fst snd last_pos accumulated_distance printed]. fold acc.
  assert (Hlen : Z.of_nat (List.length (segment_move (last_pos st)
                    (move_end (last_pos st) line) (crossings acc))) = crossings acc).
  { rewrite segment_move_length. apply Z2Nat.id. exact Hc0. }
  assert (Hval : fold_left (fun a _ => a - TRIGGER_DISTANCE_MM)
                   (segment_move (last_pos st) (move_end (last_pos st) line)
                                 (crossings acc)) acc
                 == acc - inject_Z (crossings acc) * TRIGGER_DISTANCE_MM).
  { rewrite loop_accumulator, Hlen. reflexivity. }
  split; [reflexivity|]. split; [rewrite length_map; exact Hlen|].
  split; [exact Hval|].
  unfold in_range. cbn [accumulated_distance]. rewrite Hval. split; lra.
Qed.

(** Any other line leaves the accumulator as it is and prints nothing. *)
Lemma other_step (st : tracker) (line : string) :
  is_depositing (last_pos st) line = false ->
  let r := process_line hypot st line in
  accumulated_distance (fst r) = accumulated_distance st /\
  printed (snd r) = [].
Proof.
  intros Hd r. unfold r.
  destruct (branch_cases (last_pos st) line) as [H | [[H1 H2] | [[H1 H2] | H]]].
  - rewrite process_line_thermal by exact H. split; reflexivity.
  - rewrite process_line_plain by assumption. split; reflexivity.
  - rewrite process_line_idle by assumption. split; reflexivity.
  - congruence.
Qed.

Lemma in_range_step (st : tracker) (line : string) :
  in_range st -> in_range (fst (process_line hypot st line)).
Proof.
  intros Hr.
  destruct (is_depositing (last_pos st) line) eqn:Hd.
  - apply (depositing_step st line Hr Hd).
  - destruct (other_step st line Hd) as [Ha _].
    unfold in_range. rewrite Ha. exact Hr.
Qed.

Lemma in_range_run (lines : list string) :
  forall st, in_range st -> in_range (fst (process_lines hypot st lines)).
Proof.
  induction lines as [|line rest IH]; intros st Hr.
  - exact Hr.
  - rewrite process_lines_cons. cbn [fst].
    apply IH, in_range_step, Hr.
Qed.

Lemma in_range_initial : in_range initial.
Proof. split; [apply Qle_refl | reflexivity]. Qed.

(** The position tracked after a line, as [displacements] follows it. *)
Lemma displacements_cons (pos : position) (line : string) (rest : list string) :
  forall st, last_pos st = pos ->
  displacements hypot pos (line :: rest) =
  (if is_depositing pos line then [displacement hypot pos line] else [])
    ++ displacements hypot (last_pos (fst (process_line hypot st line))) rest.
Proof.
  intros st <-. cbn [displacements].
  destruct (branch_cases (last_pos st) line) as [H | [[H1 H2] | [[H1 H2] | H]]].
  - rewrite process_line_thermal by exact H. rewrite H.
    unfold is_depositing, is_tracked. rewrite H. reflexivity.
  - rewrite process_line_plain by assumption. rewrite H1.
    assert (Htr : is_tracked line = false).
    { unfold is_tracked. rewrite H1. exact H2. }
    unfold is_depositing. rewrite Htr. reflexivity.
  - rewrite process_line_idle by assumption. rewrite H1, H2.
    assert (Ht : is_thermal line = false).
    { unfold is_tracked in H1. destruct (is_thermal line); [discriminate | reflexivity]. }
    rewrite Ht. reflexivity.
  - rewrite (process_line_depositing hypot st line H). rewrite H.
    assert (Htr : is_tracked line = true).
    { unfold is_depositing in H. apply andb_prop in H. tauto. }
    assert (Ht : is_thermal line = false).
    { unfold is_tracked in Htr. destruct (is_thermal line); [discriminate | reflexivity]. }
    rewrite Ht, Htr. reflexivity.
Qed.

Lemma Qsum_app (a b : list Q) : Qsum (a ++ b) == Qsum a + Qsum b.
Proof.
  induction a as [|x a IH]; simpl.
  - ring.
  - rewrite IH. ring.
Qed.

(** The balance of a run: what was printed, in thresholds, plus what is
    left in the accumulator, is what was there plus the distance added. *)
Lemma run_balance (lines : list string) :
  forall st, in_range st ->
  let r := process_lines hypot st lines in
  inject_Z (Z.of_nat (List.length (printed (snd r)))) * TRIGGER_DISTANCE_MM
    + accumulated_distance (fst r)
  == accumulated_distance st + Qsum (displacements hypot (last_pos st) lines).
Proof.
  induction lines as [|line rest IH]; intros st Hr r; unfold r.
  - simpl. ring.
  - rewrite (displacements_cons (last_pos st) line rest st eq_refl).
    rewrite process_lines_cons. cbn [fst snd printed].
    specialize (IH _ (in_range_step st line Hr)). cbv zeta in IH.
    rewrite length_app, Nat2Z.inj_add, inject_Z_plus, Qsum_app.
    destruct (is_depositing (last_pos st) line) eqn:Hd.
    + destruct (depositing_step st line Hr Hd) as (_ & Hn & Ha & _).
      rewrite Hn. simpl Qsum. lra.
    + destruct (other_step st line Hd) as [Ha Hp].
      rewrite Hp. rewrite Ha in IH. simpl.
      change (inject_Z 0) with 0. lra.
Qed.

(** C4.  Accumulator renewal invariant: the accumulator starts at 0; after
    any sequence of lines it is at least 0 and below the trigger threshold;
    a depositing move of planar displacement [d] takes it from [old] to
    [(old + d) - floor((old + d) / threshold) * threshold]; every other line
    leaves it exactly as it was. *)
Theorem accumulator_renewal_invariant (lines : list string) (line : string) :
  let st := fst (process_lines hypot initial lines) in
  let st' := fst (process_line hypot st line) in
  accumulated_distance initial = 0 /\
  (0 <= accumulated_distance st /\
   accumulated_distance st < TRIGGER_DISTANCE_MM) /\
  (is_depositing (last_pos st) line = true ->
   let a := accumulated_distance st + displacement hypot (last_pos st) line in
   accumulated_distance st'
   == a - inject_Z (Qfloor (a / TRIGGER_DISTANCE_MM)) * TRIGGER_DISTANCE_MM) /\
  (is_depositing (last_pos st) line = false ->
   accumulated_distance st' = accumulated_distance st).
Proof.
  intros st st'.
  assert (Hr : in_range st) by (apply in_range_run, in_range_initial).
  split; [reflexivity|]. split; [exact Hr|]. split.
  - intros Hd a.
    destruct (depositing_step st line Hr Hd) as (_ & _ & Ha & _).
    fold a in Ha. unfold st'. rewrite Ha.
    assert (H0 : 0 <= a).
    { pose proof (displacement_nonneg (last_pos st) line).
      destruct Hr. unfold a. lra. }
    destruct (crossings_bracket a H0) as (_ & Hc & _).
    rewrite Hc. reflexivity.
  - intros Hd. apply (other_step st line Hd).
Qed.

(** C1.  Distance renewal additivity: the number of pulses of a run is the
    floor of the total planar displacement of its depositing moves over the
    trigger threshold; hence two files whose depositing moves add up to the
    same distance, however it is cut into moves, give the same number of
    pulses.  The pulses are those of the output: each adds one fan-on line
    to the fan-on lines copied from the input. *)
Theorem distance_renewal_additivity (lines : list string) :
  Z.of_nat (pulses hypot lines)
  = Qfloor (Qsum (displacements hypot (last_pos initial) lines)
            / TRIGGER_DISTANCE_MM) /\
  (forall lines' : list string,
      Qsum (displacements hypot (last_pos initial) lines')
      == Qsum (displacements hypot (last_pos initial) lines) ->
      pulses hypot lines' = pulses hypot lines) /\
  count_occ string_dec (process_gcode hypot lines) fan_on_line
  = (count_occ string_dec lines fan_on_line + pulses hypot lines)%nat.
Proof.
  assert (Hmain : forall ls, Z.of_nat (pulses hypot ls)
            = Qfloor (Qsum (displacements hypot (last_pos initial) ls)
                      / TRIGGER_DISTANCE_MM)).
  { intros ls.
    pose proof (run_balance ls initial in_range_initial) as Hb.
    pose proof (in_range_run ls initial in_range_initial) as [Hlo Hhi].
    cbv zeta in Hb. change (accumulated_distance initial) with 0 in Hb.
    unfold pulses, process_gcode_stdout.
    set (n := Z.of_nat _) in *. set (S := Qsum _) in *.
    set (a := accumulated_distance _) in *.
    pose proof trigger_pos as HT.
    symmetry. apply Qfloor_unique.
    - apply Qle_shift_div_l; [exact HT|]. lra.
    - apply Qlt_shift_div_r; [exact HT|]. lra. }
  split; [apply Hmain|]. split.
  - intros lines' Heq. apply Nat2Z.inj.
    rewrite !Hmain, Heq. reflexivity.
  - apply fan_on_count.
Qed.

End Renewal.

Lemma hypot_isqrt_nonneg (x y : Q) : 0 <= hypot_isqrt x y.
Proof.
  unfold hypot_isqrt. rewrite Qred_correct.
  unfold Qle. cbn [Qnum Qden].
  rewrite Z.mul_0_l, Z.mul_1_r. apply Z.sqrt_nonneg.
Qed.

Lemma accumulator_renewal_invariant_witness :
  let st := fst (process_lines hypot_isqrt initial sample_lines) in
  let st' := fst (process_line hypot_isqrt st (ln "G1 X3 Y0 E3")) in
  accumulated_distance initial = 0 /\
  (0 <= accumulated_distance st /\
   accumulated_distance st < TRIGGER_DISTANCE_MM) /\
  (is_depositing (last_pos st) (ln "G1 X3 Y0 E3") = true ->
   let a := accumulated_distance st
            + displacement hypot_isqrt (last_pos st) (ln "G1 X3 Y0 E3") in
   accumulated_distance st'
   == a - inject_Z (Qfloor (a / TRIGGER_DISTANCE_MM)) * TRIGGER_DISTANCE_MM) /\
  (is_depositing (last_pos st) (ln "G1 X3 Y0 E3") = false ->
   accumulated_distance st' = accumulated_distance st).
Proof.
  exact (accumulator_renewal_invariant hypot_isqrt hypot_isqrt_nonneg
           sample_lines (ln "G1 X3 Y0 E3")).
Defined.

Lemma distance_renewal_additivity_witness :
  Z.of_nat (pulses hypot_isqrt sample_lines)
  = Qfloor (Qsum (displacements hypot_isqrt (last_pos initial) sample_lines)
            / TRIGGER_DISTANCE_MM) /\
  (forall lines' : list string,
      Qsum (displacements hypot_isqrt (last_pos initial) lines')
      == Qsum (displacements hypot_isqrt (last_pos initial) sample_lines) ->
      pulses hypot_isqrt lines' = pulses hypot_isqrt sample_lines) /\
  count_occ string_dec (process_gcode hypot_isqrt sample_lines) fan_on_line
  = (count_occ string_dec sample_lines fan_on_line
     + pulses hypot_isqrt sample_lines)%nat.
Proof.
  exact (distance_renewal_additivity hypot_isqrt hypot_isqrt_nonneg sample_lines).
Defined.

Example sample_pulses :
  pulses hypot_isqrt sample_lines = 6%nat /\
  displacements hypot_isqrt (last_pos initial) sample_lines
  = [(5 # 1); (1 # 2); (3 # 4)].
Proof. vm_compute. split; reflexivity. Qed.

(** *** The rewriter on concrete lines *)

Lemma final_end_move_witness :
  is_depositing (last_pos initial) (ln "G1 X0.5 E1") = true /\
  appended (snd (process_line hypot_isqrt initial (ln "G1 X0.5 E1")))
  = [ln "G1 X0.50000 Y0.00000 E1.00000"].
Proof.
  split; [vm_compute; reflexivity|].
  destruct (final_end_move hypot_isqrt initial (ln "G1 X0.5 E1"))
    as (_ & _ & H); [vm_compute; reflexivity|].
  rewrite H; vm_compute; reflexivity.
Defined.

Lemma rewritten_moves_carry_xye_only_witness :
  let line := ln "G1 X3 Y4 E1 F1500 ; first" in
  let fast := {| last_pos := {| pX := 0; pY := 0; pE := 0; pF := Some (3000 # 1) |};
                 accumulated_distance := 0 |} in
  is_depositing (last_pos initial) line = true /\
  same_but_feed initial fast /\
  appended (snd (process_line hypot_isqrt fast line))
  = appended (snd (process_line hypot_isqrt initial line)).
Proof.
  intros line fast.
  assert (Hd : is_depositing (last_pos initial) line = true)
    by (vm_compute; reflexivity).
  assert (Hs : same_but_feed initial fast)
    by (repeat split; reflexivity).
  split; [exact Hd|]. split; [exact Hs|].
  destruct (rewritten_moves_carry_xye_only hypot_isqrt initial line Hd) as [_ H].
  exact (H fast Hs).
Defined.

Lemma non_extruding_motion_frame_witness :
  let line := ln "  G1 X5 Y5 E-1 F900 ; retract" in
  is_motion line = true /\
  (pE (update (last_pos initial) (extract_coords line)) <= pE (last_pos initial)) /\
  process_line hypot_isqrt initial line
  = ({| last_pos := update (last_pos initial) (extract_coords line);
        accumulated_distance := accumulated_distance initial |},
     {| appended := [line]; printed := [] |}).
Proof.
  intros line.
  assert (Hm : is_motion line = true) by (vm_compute; reflexivity).
  assert (HE : pE (update (last_pos initial) (extract_coords line))
               <= pE (last_pos initial))
    by (vm_compute; discriminate).
  split; [exact Hm|]. split; [exact HE|].
  exact (non_extruding_motion_frame hypot_isqrt initial line Hm HE).
Defined.

Lemma thermal_lines_leave_tracker_witness :
  let line := ln "m109 S210 X5 E3" in
  is_thermal line = true /\
  last_pos (fst (process_line hypot_isqrt initial line)) = last_pos initial /\
  accumulated_distance (fst (process_line hypot_isqrt initial line))
  = accumulated_distance initial.
Proof.
  intros line.
  assert (Ht : is_thermal line = true) by (vm_compute; reflexivity).
  split; [exact Ht|].
  exact (thermal_lines_leave_tracker hypot_isqrt initial line Ht).
Defined.

(** C5.  Classification of motion lines is case-sensitive in the loop: the
    lowercase spelling of a motion code is not tracked, and the line is
    copied as it is with no pulse, where its uppercase spelling is tracked
    and rewritten with five pulses; the pattern [move_re], compiled with
    [re.IGNORECASE] and never used, matches both spellings. *)
Theorem lowercase_motion_is_passed_through :
  let upper := ln "G1 X3 Y4 E1" in
  let lower := ln "g1 X3 Y4 E1" in
  is_tracked upper = true /\
  is_tracked lower = false /\
  re_match move_re (strip upper) = Some "G1 X3 Y4 E1"%string /\
  re_match move_re (strip lower) = Some "g1 X3 Y4 E1"%string /\
  process_gcode hypot_isqrt [lower] = [lower] /\
  pulses hypot_isqrt [lower] = 0%nat /\
  pulses hypot_isqrt [upper] = 5%nat /\
  List.length (process_gcode hypot_isqrt [upper]) = 21%nat.
Proof. vm_compute. repeat split; reflexivity. Qed.

(** C2.  The command code written on the rewritten lines is G1 as soon as
    the text G1 occurs anywhere in the line: this G0 move, whose comment
    mentions G1, is rewritten into G1 moves. *)
Theorem command_code_taken_from_comment :
  let line := ln "G0 X1 Y0 E1 ; not G1" in
  startswith (strip line) "G0" = true /\
  startswith (strip line) "G1" = false /\
  is_depositing (last_pos initial) line = true /\
  process_gcode hypot_isqrt [line]
  = [ ln "G1 X1.00000 Y0.00000 E1.00000"; ln "M106 S255 ; ON";
      ln "G4 P200 ; Wait"; ln "M107 ; OFF";
      ln "G1 X1.00000 Y0.00000 E1.00000" ].
Proof. vm_compute. repeat split; reflexivity. Qed.

End PulseFacts.

(** ** Further properties of the extractor and of the loop *)

Module Coverage.

Import Text Re Num Pulse TextFacts ReFacts PulseFacts.

Local Open Scope Q_scope.

(** *** The extractor *)

(** X1.  [extract_coords] raises no [ValueError]: an axis is absent from the
    result only when the pattern matches nowhere on the line; whenever the
    pattern matches, [float] accepts the captured text. *)
Theorem extract_absent_only_without_match (axis : ascii) (line : string) :
  extract_axis axis line = None <-> re_search (axis_re axis) line = None.
Proof.
  unfold extract_axis.
  induction line as [|c s IH]; [split; reflexivity|].
  cbn [re_search]. rewrite re_match_axis.
  destruct (axis =? c)%char; [|exact IH].
  destruct (number_text s) as [t|] eqn:Ht; [|exact IH].
  cbn [option_map]. destruct (float_total _ _ Ht) as [q Hq]. rewrite Hq.
  split; discriminate.
Qed.

(** X2.  Whitespace around a line does not change what is extracted from
    it: stripping on the left, on the right or on both sides leaves every
    axis as it is. *)
Theorem extraction_ignores_surrounding_whitespace (line : string) :
  extract_coords (lstrip line) = extract_coords line /\
  extract_coords (rstrip line) = extract_coords line /\
  extract_coords (strip line) = extract_coords line.
Proof.
  unfold extract_coords. rewrite !extract_axis_leftmost.
  repeat split.
  - rewrite !extract_leftmost_lstrip by reflexivity. reflexivity.
  - rewrite !extract_leftmost_rstrip by reflexivity. reflexivity.
  - rewrite <- !extract_axis_leftmost, !extract_axis_strip by reflexivity.
    reflexivity.
Qed.

Section Runs.

Variable hypot : Q -> Q -> Q.

Lemma last_pos_step (st : tracker) (line : string) :
  last_pos (fst (process_line hypot st line))
  = if is_thermal line then last_pos st
    else update (last_pos st) (extract_coords line).
Proof.
  destruct (branch_cases (last_pos st) line) as [H | [[H1 H2] | [[H1 H2] | H]]].
  - rewrite process_line_thermal by exact H. rewrite H. reflexivity.
  - rewrite process_line_plain by assumption. rewrite H1. reflexivity.
  - rewrite process_line_idle by assumption.
    assert (Ht : is_thermal line = false).
    { unfold is_tracked in H1. destruct (is_thermal line); [discriminate | reflexivity]. }
    rewrite Ht. unfold move_end. rewrite extract_coords_strip. reflexivity.
  - rewrite (process_line_depositing hypot st line H).
    assert (Ht : is_thermal line = false).
    { unfold is_depositing, is_tracked in H.
      destruct (is_thermal line); [discriminate | reflexivity]. }
    rewrite Ht. unfold move_end. rewrite extract_coords_strip. reflexivity.
Qed.

(** X3.  The position tracked after a run is the merge, in the order of the
    file, of the coordinates found on every line that is not dropped,
    whatever its kind (move, comment or other command); it depends neither
    on the accumulator nor on the distances. *)
Theorem tracked_position_is_merge_of_kept_lines (st : tracker) (lines : list string) :
  last_pos (fst (process_lines hypot st lines))
  = merged (last_pos st) (kept lines).
Proof.
  revert st. induction lines as [|line rest IH]; intros st; [reflexivity|].
  rewrite process_lines_cons. cbn [fst]. rewrite IH, last_pos_step.
  unfold kept. cbn [filter].
  destruct (is_thermal line); reflexivity.
Qed.

(** *** The size and the content of the output *)

Lemma appended_step_length (st : tracker) (line : string) :
  List.length (appended (snd (process_line hypot st line)))
  = ((if is_thermal line then 0 else 1)
     + 4 * List.length (printed (snd (process_line hypot st line))))%nat.
Proof.
  destruct (branch_cases (last_pos st) line) as [H | [[H1 H2] | [[H1 H2] | H]]].
  - rewrite process_line_thermal by exact H. rewrite H. reflexivity.
  - rewrite process_line_plain by assumption. rewrite H1. reflexivity.
  - rewrite process_line_idle by assumption.
    assert (Ht : is_thermal line = false).
    { unfold is_tracked in H1. destruct (is_thermal line); [discriminate | reflexivity]. }
    rewrite Ht. reflexivity.
  - rewrite (process_line_depositing hypot st line H).
    assert (Ht : is_thermal line = false).
    { unfold is_depositing, is_tracked in H.
      destruct (is_thermal line); [discriminate | reflexivity]. }
    rewrite Ht. cbn [snd appended printed].
    rewrite length_app, length_map. cbn [List.length].
    set (segs := segment_move _ _ _).
    assert (Hf : forall l : list position,
               List.length (flat_map (pulse_lines (move_type_of line)) l)
               = (4 * List.length l)%nat).
    { induction l as [|x l IHl]; [reflexivity|].
      cbn [flat_map List.length]. rewrite length_app, IHl.
      unfold pulse_lines. cbn [List.length]. lia. }
    rewrite Hf. lia.
Qed.

(** X4.  The size of the output: one line for each line of the input that
    is not dropped, and four more for each pulse. *)
Theorem output_length (lines : list string) :
  List.length (process_gcode hypot lines)
  = (List.length (kept lines) + 4 * pulses hypot lines)%nat.
Proof.
  unfold process_gcode, pulses, process_gcode_stdout.
  generalize initial. induction lines as [|line rest IH]; intros st; [reflexivity|].
  rewrite process_lines_cons. cbn [snd appended printed].
  rewrite !length_app, IH, appended_step_length.
  unfold kept. cbn [filter].
  destruct (is_thermal line); cbn [negb List.length]; lia.
Qed.

Lemma strip_leading_G (rest : string) :
  exists rest', strip (String "G" rest) = String "G" rest'.
Proof.
  unfold strip. cbn [lstrip]. change (isspace "G") with false. cbn iota.
  rewrite rstrip_nonspace by reflexivity. eauto.
Qed.

Lemma move_line_not_thermal (mt : string) (p : position) :
  mt = "G0"%string \/ mt = "G1"%string -> is_thermal (move_line mt p) = false.
Proof.
  intros Hmt. rewrite is_thermal_iprefix.
  assert (H : exists rest, move_line mt p = String "G" rest).
  { destruct Hmt as [-> | ->]; unfold move_line; cbn [append]; eauto. }
  destruct H as [rest ->]. destruct (strip_leading_G rest) as [rest' ->].
  reflexivity.
Qed.

Lemma filter_all {A : Type} (f : A -> bool) (l : list A) :
  Forall (fun x => f x = true) l -> filter f l = l.
Proof.
  induction 1 as [|x l Hx _ IH]; [reflexivity|].
  cbn [filter]. rewrite Hx, IH. reflexivity.
Qed.

Lemma output_step_not_thermal (st : tracker) (line : string) :
  Forall (fun l => is_thermal l = false)
         (appended (snd (process_line hypot st line))).
Proof.
  destruct (branch_cases (last_pos st) line) as [H | [[H1 H2] | [[H1 H2] | H]]].
  - rewrite process_line_thermal by exact H. constructor.
  - rewrite process_line_plain by assumption. repeat constructor. exact H1.
  - rewrite process_line_idle by assumption. repeat constructor.
    unfold is_tracked in H1. destruct (is_thermal line); [discriminate | reflexivity].
  - rewrite (process_line_depositing hypot st line H). cbn [snd appended].
    pose proof (move_type_cases line) as Hmt.
    apply Forall_app. split.
    + apply Forall_flat_map, Forall_forall. intros seg _. unfold pulse_lines.
      repeat (apply Forall_cons; [first [apply move_line_not_thermal, Hmt
                                        | reflexivity]|]).
      apply Forall_nil.
    + apply Forall_cons; [apply move_line_not_thermal, Hmt | apply Forall_nil].
Qed.

(** X5.  The output holds no thermal-control line: neither a copied line
    nor a line written by the rewriter is one, so that a second pass over
    the output has nothing to drop. *)
Theorem output_has_no_thermal_line (lines : list string) :
  Forall (fun l => is_thermal l = false) (process_gcode hypot lines) /\
  kept (process_gcode hypot lines) = process_gcode hypot lines.
Proof.
  assert (H : Forall (fun l => is_thermal l = false) (process_gcode hypot lines)).
  { unfold process_gcode. generalize initial.
    induction lines as [|line rest IH]; intros st; [constructor|].
    rewrite process_lines_cons. cbn [snd appended].
    apply Forall_app. split; [apply output_step_not_thermal | apply IH]. }
  split; [exact H|].
  unfold kept. apply filter_all.
  revert H. apply Forall_impl. intros l ->. reflexivity.
Qed.

Lemma displacements_kept (pos : position) (lines : list string) :
  displacements hypot pos (kept lines) = displacements hypot pos lines.
Proof.
  revert pos. induction lines as [|line rest IH]; intros pos; [reflexivity|].
  unfold kept in *. cbn [filter displacements].
  destruct (is_thermal line) eqn:Ht; cbn [negb]; [apply IH|].
  cbn [displacements]. rewrite Ht, !IH. reflexivity.
Qed.

Lemma kept_idempotent (lines : list string) : kept (kept lines) = kept lines.
Proof.
  unfold kept. induction lines as [|line rest IH]; [reflexivity|].
  cbn [filter]. destruct (is_thermal line) eqn:Ht; cbn [negb filter]; [exact IH|].
  rewrite Ht. cbn [negb]. rewrite IH. reflexivity.
Qed.

Lemma no_deposit_run (lines : list string) :
  forall st,
    displacements hypot (last_pos st) lines = [] ->
    appended (snd (process_lines hypot st lines)) = kept lines.
Proof.
  induction lines as [|line rest IH]; intros st Hd; [reflexivity|].
  rewrite (displacements_cons hypot (last_pos st) line rest st eq_refl) in Hd.
  apply app_eq_nil in Hd as [Hline Hrest].
  rewrite process_lines_cons. cbn [snd appended]. rewrite (IH _ Hrest).
  unfold kept. cbn [filter].
  destruct (branch_cases (last_pos st) line) as [H | [[H1 H2] | [[H1 H2] | H]]].
  - rewrite process_line_thermal by exact H. rewrite H. reflexivity.
  - rewrite process_line_plain by assumption. rewrite H1. reflexivity.
  - rewrite process_line_idle by assumption.
    assert (Ht : is_thermal line = false).
    { unfold is_tracked in H1. destruct (is_thermal line); [discriminate | reflexivity]. }
    rewrite Ht. reflexivity.
  - rewrite H in Hline. discriminate.
Qed.

(** X6.  A file with no depositing move is only stripped of its thermal
    lines: the output is the input without them, every other line as it was
    and where it was; and rewriting that output again changes nothing. *)
Theorem no_deposit_only_elides (lines : list string) :
  displacements hypot (last_pos initial) lines = [] ->
  process_gcode hypot lines = kept lines /\
  process_gcode hypot (process_gcode hypot lines) = process_gcode hypot lines.
Proof.
  intros Hd.
  assert (H1 : process_gcode hypot lines = kept lines)
    by (apply no_deposit_run, Hd).
  split; [exact H1|]. rewrite H1.
  unfold process_gcode. rewrite no_deposit_run; [apply kept_idempotent|].
  rewrite displacements_kept. exact Hd.
Qed.


Lemma prefix_nil (s : string) : prefix "" s = true.
Proof. destruct s; reflexivity. Qed.

(** X8.  The command code written for a tracked line is the line's own
    leading code whenever the line starts with G1, or the text G1 occurs
    nowhere in it. *)
Theorem command_code_kept (line : string) :
  is_motion line = true ->
  startswith (strip line) "G1" = true \/ contains "G1" (strip line) = false ->
  move_type_of line = substring 0 2 (strip line).
Proof.
  unfold is_motion, move_type_of, startswith. intros Hm Hc.
  destruct (strip line) as [|c1 [|c2 s]].
  - discriminate.
  - cbn [prefix] in Hm. destruct (ascii_dec "G" c1); discriminate.
  - assert (Hsub : substring 0 2 (String c1 (String c2 s))
                   = String c1 (String c2 "")).
    { cbn [substring]. destruct s; reflexivity. }
    rewrite Hsub. clear Hsub.
    cbn [prefix] in Hm. cbn [contains prefix] in Hc |- *.
    destruct (ascii_dec "G" c1) as [<- | Hne]; [|discriminate].
    rewrite !prefix_nil in *.
    destruct (ascii_dec "1" c2) as [<- | Hne1]; [reflexivity|].
    destruct (ascii_dec "0" c2) as [<- | Hne0]; [|discriminate].
    destruct Hc as [Hc | Hc]; [discriminate|].
    rewrite Hc. reflexivity.
Qed.

End Runs.

(** *** Interpolation *)









Section LastPulse.

Variable hypot : Q -> Q -> Q.


End LastPulse.



(** *** The file as text *)

Lemma writelines_cons (l : string) (ls : list string) :
  writelines (l :: ls) = (l ++ writelines ls)%string.
Proof. reflexivity. Qed.

Lemma one_line_cons (c : ascii) (l : string) :
  l <> EmptyString ->
  one_line (String c l) = negb (c =? "010")%char && one_line l.
Proof. destruct l; [contradiction | reflexivity]. Qed.

Lemma terminated_cons (c : ascii) (l : string) :
  l <> EmptyString -> terminated (String c l) = terminated l.
Proof. destruct l; [contradiction | reflexivity]. Qed.

Lemma one_line_nonempty (l : string) : one_line l = true -> l <> EmptyString.
Proof. destruct l; [discriminate | discriminate]. Qed.

Lemma file_lines_cons (l : string) (ls : list string) :
  one_line l = true -> (ls <> [] -> terminated l = true) -> file_lines ls ->
  file_lines (l :: ls).
Proof.
  intros H1 H2 H3. destruct ls as [|l2 ls]; [exact H1|].
  cbn [file_lines]. split; [exact H1|]. split; [apply H2; discriminate | exact H3].
Qed.

Lemma file_lines_inv (l : string) (ls : list string) :
  file_lines (l :: ls) ->
  one_line l = true /\ (ls <> [] -> terminated l = true) /\ file_lines ls.
Proof.
  destruct ls as [|l2 ls]; cbn [file_lines].
  - intros H. split; [exact H|]. split; [intros E; contradiction | exact I].
  - intros (H1 & H2 & H3). split; [exact H1|]. split; [intros _; exact H2 | exact H3].
Qed.

Lemma readlines_file_lines (text : string) : file_lines (readlines text).
Proof.
  induction text as [|c rest IH]; [exact I|].
  cbn [readlines]. destruct (Ascii.eqb_spec c "010") as [-> | Hne].
  - apply file_lines_cons; [reflexivity | reflexivity | exact IH].
  - destruct (readlines rest) as [|l ls]; [reflexivity|].
    apply file_lines_inv in IH as (H1 & H2 & H3).
    pose proof (one_line_nonempty l H1) as Hl.
    apply file_lines_cons; [| |exact H3].
    + rewrite one_line_cons by exact Hl. rewrite H1.
      apply Ascii.eqb_neq in Hne. rewrite Hne. reflexivity.
    + intros Hls. rewrite terminated_cons by exact Hl. apply H2, Hls.
Qed.

Lemma readlines_other (c : ascii) (rest : string) :
  (c =? "010")%char = false ->
  readlines (String c rest)
  = match readlines rest with
    | [] => [String c EmptyString]
    | l :: ls => String c l :: ls
    end.
Proof. intros H. cbn [readlines]. rewrite H. reflexivity. Qed.

Lemma readlines_whole_line (l text : string) :
  one_line l = true -> terminated l = true ->
  readlines (l ++ text) = l :: readlines text.
Proof.
  induction l as [|c l IH]; [discriminate|].
  destruct l as [|c2 l].
  - cbn [one_line terminated append]. intros _ Hc.
    cbn [readlines]. rewrite Hc. apply Ascii.eqb_eq in Hc. subst c. reflexivity.
  - intros H1 H2.
    rewrite one_line_cons in H1 by discriminate.
    rewrite terminated_cons in H2 by discriminate.
    apply andb_prop in H1 as [Hc Hl]. apply negb_true_iff in Hc.
    change ((String c (String c2 l) ++ text)%string)
      with (String c (String c2 l ++ text)%string).
    rewrite (readlines_other c _ Hc), (IH Hl H2). reflexivity.
Qed.

Lemma readlines_last_line (l : string) :
  one_line l = true -> readlines l = [l].
Proof.
  induction l as [|c l IH]; [discriminate|].
  destruct l as [|c2 l].
  - intros _. cbn [readlines]. destruct (c =? "010")%char; reflexivity.
  - intros H1. rewrite one_line_cons in H1 by discriminate.
    apply andb_prop in H1 as [Hc Hl]. apply negb_true_iff in Hc.
    rewrite (readlines_other c _ Hc), (IH Hl). reflexivity.
Qed.

Lemma readlines_writelines (lines : list string) :
  file_lines lines -> readlines (writelines lines) = lines.
Proof.
  induction lines as [|l ls IH]; [reflexivity|].
  intros H. apply file_lines_inv in H as (H1 & H2 & H3).
  rewrite writelines_cons. destruct ls as [|l2 ls].
  - cbn [writelines fold_right]. rewrite str_app_nil_r.
    apply readlines_last_line, H1.
  - rewrite readlines_whole_line; [|exact H1 | apply H2; discriminate].
    rewrite (IH H3). reflexivity.
Qed.



Lemma whole_line_app (a b : string) :
  all_chars not_newline a = true -> whole_line b -> whole_line (a ++ b)%string.
Proof.
  unfold whole_line. intros Ha [Hb1 Hb2].
  pose proof (one_line_nonempty b Hb1) as Hb.
  unfold all_chars in Ha.
  induction a as [|c a IH]; [split; assumption|].
  cbn [list_ascii_of_string forallb] in Ha. apply andb_prop in Ha as [Hc Ha].
  unfold not_newline in Hc.
  destruct (IH Ha) as [H1 H2].
  assert (Hne : (a ++ b)%string <> EmptyString) by (apply one_line_nonempty, H1).
  cbn [append]. rewrite one_line_cons, terminated_cons by exact Hne.
  rewrite Hc, H1, H2. split; reflexivity.
Qed.

Lemma numeric_not_newline (c : ascii) :
  numeric_char c = true -> not_newline c = true.
Proof. ascii_cases c; vm_compute; auto. Qed.

Lemma move_line_whole (mt : string) (p : position) :
  mt = "G0"%string \/ mt = "G1"%string -> whole_line (move_line mt p).
Proof.
  intros Hmt. unfold move_line.
  assert (Hf : forall x, all_chars not_newline (format_f 5 x) = true).
  { intros x. eapply all_chars_weaken; [apply numeric_not_newline|].
    apply format_f_numeric. }
  assert (Hnl : whole_line nl) by (split; reflexivity).
  repeat (apply whole_line_app;
          [first [apply Hf | destruct Hmt as [-> | ->]; reflexivity | reflexivity]|]).
  exact Hnl.
Qed.

Lemma whole_lines_file (a b : list string) :
  Forall whole_line a -> file_lines b -> file_lines (a ++ b)%list.
Proof.
  induction 1 as [|l a [H1 H2] _ IH]; intros Hb; [exact Hb|].
  cbn [app]. apply file_lines_cons; [exact H1 | intros _; exact H2 | apply IH, Hb].
Qed.

Section WrittenFile.

Variable hypot : Q -> Q -> Q.

Lemma step_whole_lines (st : tracker) (line : string) :
  one_line line = true ->
  file_lines (appended (snd (process_line hypot st line))) /\
  (terminated line = true ->
   Forall whole_line (appended (snd (process_line hypot st line)))).
Proof.
  intros H1.
  assert (Hcopy : file_lines [line] /\ (terminated line = true -> Forall whole_line [line])).
  { split; [exact H1|]. intros H2. repeat constructor; assumption. }
  destruct (branch_cases (last_pos st) line) as [H | [[Ht Hp] | [[Ht Hp] | H]]].
  - rewrite process_line_thermal by exact H. split; [exact I | constructor].
  - rewrite process_line_plain by assumption. exact Hcopy.
  - rewrite process_line_idle by assumption. exact Hcopy.
  - rewrite (process_line_depositing hypot st line H). cbn [snd appended].
    pose proof (move_type_cases line) as Hmt.
    assert (Hall : Forall whole_line
              (flat_map (pulse_lines (move_type_of line))
                 (segment_move (last_pos st) (move_end (last_pos st) line)
                    (crossings (accumulated_distance st
                                + displacement hypot (last_pos st) line)))
               ++ [move_line (move_type_of line) (move_end (last_pos st) line)])).
    { apply Forall_app. split.
      - apply Forall_flat_map, Forall_forall. intros seg _. unfold pulse_lines.
        apply Forall_cons; [apply move_line_whole, Hmt|].
        repeat (apply Forall_cons; [split; reflexivity|]). apply Forall_nil.
      - apply Forall_cons; [apply move_line_whole, Hmt | apply Forall_nil]. }
    split; [|intros _; exact Hall].
    rewrite <- (app_nil_r (_ ++ _)). apply whole_lines_file; [exact Hall | exact I].
Qed.

Lemma run_file_lines (lines : list string) :
  forall st, file_lines lines ->
             file_lines (appended (snd (process_lines hypot st lines))).
Proof.
  induction lines as [|l ls IH]; intros st Hl; [exact I|].
  apply file_lines_inv in Hl as (H1 & H2 & H3).
  rewrite process_lines_cons. cbn [snd appended].
  destruct (step_whole_lines st l H1) as [Hf Hw].
  destruct ls as [|l2 ls].
  - cbn [process_lines snd nothing appended]. rewrite app_nil_r. exact Hf.
  - apply whole_lines_file; [apply Hw, H2; discriminate | apply IH, H3].
Qed.

(** X15.  The file written is, line for line, what the rewriter appended:
    the output of a file that was read holds one line per element, all but
    the last ending with [\n], so that reading the written text back gives
    exactly the lines of the output. *)
Theorem written_file_reads_as_output (text : string) :
  file_lines (process_gcode hypot (readlines text)) /\
  readlines (process_gcode_text hypot text) = process_gcode hypot (readlines text).
Proof.
  assert (H : file_lines (process_gcode hypot (readlines text)))
    by (apply run_file_lines, readlines_file_lines).
  split; [exact H|]. unfold process_gcode_text.
  apply readlines_writelines, H.
Qed.


End WrittenFile.

(** *** Formatting a number and reading it back *)

Lemma digits_val_app (a b : string) :
  forall acc : Z, digits_val acc (a ++ b) = digits_val (digits_val acc a) b.
Proof.
  induction a as [|c a IH]; intros acc; cbn [append digits_val];
    [reflexivity | apply IH].
Qed.

Lemma digits_val_uint_acc (d : Decimal.uint) :
  forall acc : positive,
    digits_val (Z.pos acc) (NilEmpty.string_of_uint d)
    = Z.pos (Pos.of_uint_acc d acc).
Proof.
  induction d; intros acc;
    cbn [NilEmpty.string_of_uint digits_val Pos.of_uint_acc];
    try reflexivity;
    rewrite <- IHd; f_equal;
    match goal with
    | |- context [digit_val ?c] =>
        let v := eval vm_compute in (digit_val c) in
        change (digit_val c) with v
    end; lia.
Qed.

Lemma digits_val_uint (d : Decimal.uint) :
  digits_val 0 (NilEmpty.string_of_uint d) = Z.of_N (Pos.of_uint d).
Proof.
  induction d; cbn [NilEmpty.string_of_uint digits_val Pos.of_uint];
    first [ reflexivity | exact IHd | exact (digits_val_uint_acc d _) ].
Qed.

Lemma str_int_value (n : Z) : (0 <= n)%Z -> digits_val 0 (str_int n) = n.
Proof.
  intros Hn. destruct n as [|q|q]; [reflexivity| |lia].
  unfold str_int, Z.to_int, NilZero.string_of_int, NilZero.string_of_uint.
  pose proof (DecimalPos.Unsigned.of_to q) as Hq.
  destruct (Pos.to_uint q) eqn:Hu; try discriminate;
    rewrite digits_val_uint, Hq; reflexivity.
Qed.

Lemma str_int_starts_digit (n : Z) :
  (0 <= n)%Z -> exists c t, str_int n = String c t /\ isdigit c = true.
Proof.
  intros Hn. pose proof (str_int_isdigit n Hn) as Hd.
  destruct n as [|q|q]; [exists "0"%char, EmptyString; split; reflexivity| |lia].
  unfold str_int, Z.to_int, NilZero.string_of_int, NilZero.string_of_uint in *.
  pose proof (DecimalPos.Unsigned.of_to q) as Hq.
  destruct (Pos.to_uint q) eqn:Hu; try discriminate;
    cbn [NilEmpty.string_of_uint] in *; eexists _, _; split; reflexivity.
Qed.

Lemma digit_val_char (d : Z) : (0 <= d < 10)%Z -> digit_val (digit_char d) = d.
Proof.
  intros H.
  assert (Hd : (d = 0 \/ d = 1 \/ d = 2 \/ d = 3 \/ d = 4 \/ d = 5 \/ d = 6
               \/ d = 7 \/ d = 8 \/ d = 9)%Z) by lia.
  repeat (destruct Hd as [-> | Hd]; [reflexivity|]). subst d. reflexivity.
Qed.

Lemma low_digits_value (k : nat) :
  forall n acc : Z,
    digits_val acc (low_digits k n) = (acc * 10 ^ Z.of_nat k + n mod 10 ^ Z.of_nat k)%Z.
Proof.
  induction k as [|k IH]; intros n acc.
  - cbn [low_digits digits_val Z.of_nat]. rewrite Z.pow_0_r, Z.mod_1_r. lia.
  - cbn [low_digits]. rewrite digits_val_app, IH. cbn [digits_val].
    rewrite digit_val_char by (apply Z.mod_pos_bound; lia).
    rewrite Nat2Z.inj_succ, Z.pow_succ_r by lia.
    rewrite (Z.rem_mul_r n 10 (10 ^ Z.of_nat k)) by lia. lia.
Qed.

Lemma round_half_even_near (y : Q) :
  inject_Z (round_half_even y) - (1 # 2) <= y /\
  y <= inject_Z (round_half_even y) + (1 # 2).
Proof.
  unfold round_half_even. cbv zeta.
  pose proof (Qfloor_le y) as Hlo. pose proof (Qlt_floor y) as Hhi.
  rewrite inject_Z_plus in Hhi. change (inject_Z 1) with 1 in Hhi.
  destruct (y - inject_Z (Qfloor y) ?= 1 # 2) eqn:Hc.
  - apply Qeq_alt in Hc.
    destruct (Z.even (Qfloor y)); [|rewrite inject_Z_plus; change (inject_Z 1) with 1];
      split; lra.
  - apply Qlt_alt in Hc. split; lra.
  - apply Qgt_alt in Hc. rewrite inject_Z_plus. change (inject_Z 1) with 1.
    split; lra.
Qed.

Lemma round_half_even_sign (y : Q) :
  (0 <= y -> (0 <= round_half_even y)%Z) /\
  (y < 0 -> (round_half_even y <= 0)%Z).
Proof.
  unfold round_half_even. cbv zeta.
  pose proof (Qfloor_le y) as Hlo. pose proof (Qlt_floor y) as Hhi.
  split; intros Hy.
  - assert (H0 : (0 <= Qfloor y)%Z).
    { change 0%Z with (Qfloor 0). apply Qfloor_resp_le, Hy. }
    destruct (y - inject_Z (Qfloor y) ?= 1 # 2); [destruct (Z.even _)| |]; lia.
  - assert (H0 : (Qfloor y < 0)%Z).
    { rewrite Zlt_Qlt. eapply Qle_lt_trans; [exact Hlo | exact Hy]. }
    destruct (y - inject_Z (Qfloor y) ?= 1 # 2); [destruct (Z.even _)| |]; lia.
Qed.

Lemma scale_pos (prec : nat) : (0 < 10 ^ Z.of_nat prec)%Z.
Proof. apply Z.pow_pos_nonneg; lia. Qed.

Lemma float_unsigned_format (prec : nat) (m : Z) :
  (0 <= m)%Z ->
  float_unsigned (str_int (m / 10 ^ Z.of_nat prec) ++ "." ++ low_digits prec m)
  = Some (Qmake m (Z.to_pos (10 ^ Z.of_nat prec))).
Proof.
  intros Hm. pose proof (scale_pos prec) as Hs.
  assert (Hq : (0 <= m / 10 ^ Z.of_nat prec)%Z) by (apply Z.div_pos; lia).
  unfold float_unsigned.
  change (str_int (m / 10 ^ Z.of_nat prec) ++ "." ++ low_digits prec m)%string
    with (str_int (m / 10 ^ Z.of_nat prec) ++ String "." (low_digits prec m))%string.
  rewrite split_dot_point by (apply str_int_isdigit, Hq).
  rewrite str_int_isdigit by exact Hq. rewrite low_digits_isdigit.
  destruct (str_int_starts_digit _ Hq) as (c & t & Hstr & _).
  assert (Hlen : (0 <? length (str_int (m / 10 ^ Z.of_nat prec))
                        + length (low_digits prec m))%nat = true).
  { rewrite Hstr. reflexivity. }
  rewrite Hlen. cbn [andb]. f_equal.
  rewrite digits_val_app, str_int_value, low_digits_value, low_digits_length
    by exact Hq.
  f_equal. rewrite Z.mul_comm. symmetry. apply Z.div_mod. lia.
Qed.

Lemma float_format_value (prec : nat) (x : Q) :
  exists q : Q,
    float (format_f prec x) = Some q /\
    q == rounded prec x /\
    x - (1 # 2) / inject_Z (10 ^ Z.of_nat prec) <= q /\
    q <= x + (1 # 2) / inject_Z (10 ^ Z.of_nat prec).
Proof.
  pose proof (scale_pos prec) as Hs.
  set (scale := (10 ^ Z.of_nat prec)%Z) in *.
  set (r := round_half_even (x * inject_Z scale)).
  assert (HsQ : 0 < inject_Z scale)
    by (change 0 with (inject_Z 0); rewrite <- Zlt_Qlt; exact Hs).
  assert (Hne : ~ inject_Z scale == 0)
    by (intros E; rewrite E in HsQ; discriminate).
  assert (Hval : forall m : Z,
             Qmake m (Z.to_pos scale) == inject_Z m / inject_Z scale).
  { intros m. rewrite Qmake_Qdiv. rewrite Z2Pos.id by exact Hs. reflexivity. }
  assert (Hnear : x - (1 # 2) / inject_Z scale <= rounded prec x /\
                  rounded prec x <= x + (1 # 2) / inject_Z scale).
  { unfold rounded. fold scale. fold r.
    destruct (round_half_even_near (x * inject_Z scale)) as [H1 H2]. fold r in H1, H2.
    split.
    - apply Qle_shift_div_l; [exact HsQ|].
      setoid_replace ((x - (1 # 2) / inject_Z scale) * inject_Z scale)
        with (x * inject_Z scale - (1 # 2)) by (field; exact Hne).
      lra.
    - apply Qle_shift_div_r; [exact HsQ|].
      setoid_replace ((x + (1 # 2) / inject_Z scale) * inject_Z scale)
        with (x * inject_Z scale + (1 # 2)) by (field; exact Hne).
      lra. }
  assert (Hfmt : format_f prec x
                 = ((if Qle_bool 0 x then "" else "-")
                      ++ str_int (Z.abs r / scale) ++ "." ++ low_digits prec (Z.abs r))%string)
    by reflexivity.
  pose proof (float_unsigned_format prec (Z.abs r) (Z.abs_nonneg r)) as Hu.
  fold scale in Hu.
  destruct (round_half_even_sign (x * inject_Z scale)) as [Hpos Hneg].
  fold r in Hpos, Hneg.
  destruct (Qle_bool 0 x) eqn:Hx.
  - apply Qle_bool_iff in Hx.
    assert (Hr : (0 <= r)%Z).
    { apply Hpos. apply Qmult_le_0_compat; [exact Hx | apply Qlt_le_weak, HsQ]. }
    exists (Qmake (Z.abs r) (Z.to_pos scale)). split; [|split].
    + rewrite Hfmt. cbn [append].
      destruct (str_int_starts_digit (Z.abs r / scale)) as (c & t & Hstr & Hc);
        [apply Z.div_pos; lia|].
      rewrite Hstr in Hu |- *. cbn [append] in Hu |- *.
      rewrite float_no_minus; [exact Hu|]. intros ->. discriminate.
    + rewrite Hval, Z.abs_eq by exact Hr. reflexivity.
    + rewrite Hval, Z.abs_eq by exact Hr. exact Hnear.
  - apply Qle_bool_false in Hx.
    assert (Hr : (r <= 0)%Z).
    { apply Hneg. setoid_replace 0 with (0 * inject_Z scale) by ring.
      apply Qmult_lt_compat_r; assumption. }
    exists (- Qmake (Z.abs r) (Z.to_pos scale)). split; [|split].
    + rewrite Hfmt. cbn [append] in Hu |- *. cbn [float]. rewrite Hu. reflexivity.
    + rewrite Hval. unfold rounded. fold scale. fold r.
      rewrite Z.abs_neq by exact Hr. rewrite inject_Z_opp. field. exact Hne.
    + assert (E : - Qmake (Z.abs r) (Z.to_pos scale) == rounded prec x).
      { rewrite Hval. unfold rounded. fold scale. fold r.
        rewrite Z.abs_neq by exact Hr. rewrite inject_Z_opp. field. exact Hne. }
      rewrite E. exact Hnear.
Qed.

(** X17.  A formatted number reads back as the number rounded: [float]
    accepts what [%.{prec}f] prints and gives the value rounded to [prec]
    decimals, ties to even, which is within half a unit of the last decimal
    of the number formatted. *)
Theorem format_then_float (prec : nat) (x : Q) :
  exists q : Q,
    float (format_f prec x) = Some q /\
    q == rounded prec x /\
    x - (1 # 2) / inject_Z (10 ^ Z.of_nat prec) <= q /\
    q <= x + (1 # 2) / inject_Z (10 ^ Z.of_nat prec).
Proof. apply float_format_value. Qed.

(** *** Reading a rewritten line back *)

Lemma take_digits_app (a : string) (c : ascii) (r : string) :
  all_chars isdigit a = true -> isdigit c = false ->
  take_digits (a ++ String c r) = a /\ skip_digits (a ++ String c r) = String c r.
Proof.
  unfold all_chars. intros Ha Hc.
  induction a as [|d a IH]; cbn [append take_digits skip_digits].
  - rewrite Hc. split; reflexivity.
  - cbn [list_ascii_of_string forallb] in Ha. apply andb_prop in Ha as [Hd Ha].
    rewrite Hd. destruct (IH Ha) as [-> ->]. split; reflexivity.
Qed.

Lemma number_text_format (k : nat) (x : Q) (c : ascii) (r : string) :
  isdigit c = false ->
  number_text (format_f (S k) x ++ String c r) = Some (format_f (S k) x).
Proof.
  intros Hc. unfold format_f. cbv zeta.
  set (scale := (10 ^ Z.of_nat (S k))%Z).
  set (m := Z.abs _).
  assert (Hq : (0 <= m / scale)%Z).
  { apply Z.div_pos; [apply Z.abs_nonneg | apply scale_pos]. }
  destruct (str_int_starts_digit _ Hq) as (c1 & t1 & Hstr & Hc1).
  pose proof (str_int_isdigit _ Hq) as Hip.
  pose proof (low_digits_isdigit (S k) m) as Hfp.
  assert (Hfp1 : exists c2 t2, low_digits (S k) m = String c2 t2 /\ isdigit c2 = true).
  { pose proof (low_digits_length (S k) m) as Hlen.
    destruct (low_digits (S k) m) as [|c2 t2]; [discriminate|].
    exists c2, t2. split; [reflexivity|].
    unfold all_chars in Hfp. cbn [list_ascii_of_string forallb] in Hfp.
    apply andb_prop in Hfp. tauto. }
  destruct Hfp1 as (c2 & t2 & Hlow & Hc2).
  set (ip := str_int (m / scale)) in *. set (fp := low_digits (S k) m) in *.
  assert (Hu : unsigned_split ((ip ++ "." ++ fp) ++ String c r)
               = Some ((ip ++ "." ++ fp)%string, String c r)).
  { unfold unsigned_split.
    replace ((ip ++ "." ++ fp) ++ String c r)%string
      with (ip ++ String "." (fp ++ String c r))%string
      by (rewrite !str_app_assoc; reflexivity).
    destruct (take_digits_app ip "." (fp ++ String c r) Hip eq_refl) as [-> ->].
    rewrite Ascii.eqb_refl.
    destruct (take_digits_app fp c r Hfp Hc) as [-> ->].
    rewrite Hlow at 1. cbn [append starts_digit]. rewrite Hc2.
    cbn [andb]. reflexivity. }
  unfold number_text.
  destruct (Qle_bool 0 x).
  - cbn [append]. rewrite Hstr in Hu |- *. cbn [append] in Hu |- *.
    rewrite number_split_unsigned by (intros ->; discriminate).
    rewrite Hu. reflexivity.
  - change (("-" ++ ip ++ "." ++ fp) ++ String c r)%string
      with (String "-" ((ip ++ "." ++ fp) ++ String c r)).
    cbn [number_split]. rewrite Hu. reflexivity.
Qed.

Lemma extract_leftmost_skip (axis : ascii) (pre s : string) :
  all_chars (fun c => negb (axis =? c)%char) pre = true ->
  extract_leftmost axis (pre ++ s) = extract_leftmost axis s.
Proof.
  unfold all_chars. induction pre as [|c pre IH]; intros H; [reflexivity|].
  cbn [list_ascii_of_string forallb] in H. apply andb_prop in H as [Hc Hp].
  cbn [append extract_leftmost]. apply negb_true_iff in Hc. rewrite Hc.
  apply IH, Hp.
Qed.

Lemma extract_leftmost_absent (axis : ascii) (s : string) :
  all_chars (fun c => negb (axis =? c)%char) s = true ->
  extract_leftmost axis s = None.
Proof.
  intros H. rewrite <- (str_app_nil_r s), extract_leftmost_skip by exact H.
  reflexivity.
Qed.

Lemma extract_leftmost_field (axis : ascii) (pre : string) (x : Q)
      (c : ascii) (r : string) :
  all_chars (fun c => negb (axis =? c)%char) pre = true ->
  isdigit c = false ->
  extract_leftmost axis (pre ++ String axis (format_f 5 x ++ String c r))
  = float (format_f 5 x).
Proof.
  intros Hpre Hc. rewrite extract_leftmost_skip by exact Hpre.
  cbn [extract_leftmost]. rewrite Ascii.eqb_refl, number_text_format by exact Hc.
  reflexivity.
Qed.

Lemma numeric_not_letter (axis c : ascii) :
  isdigit axis = false -> axis <> "-"%char -> axis <> "."%char ->
  numeric_char c = true -> negb (axis =? c)%char = true.
Proof.
  intros Hd Hm Hp Hc. apply negb_true_iff, Ascii.eqb_neq. intros <-.
  unfold numeric_char in Hc. rewrite Hd in Hc. cbn [orb] in Hc.
  apply orb_prop in Hc as [Hc | Hc]; apply Ascii.eqb_eq in Hc; contradiction.
Qed.

(** X18.  A rewritten motion line reads back as it was written: the
    extractor finds on it the X, the Y and the E of the position, each
    rounded to five decimals, and no feed rate. *)
Theorem rewritten_line_reads_back (mt : string) (p : position) :
  mt = "G0"%string \/ mt = "G1"%string ->
  exists qx qy qe : Q,
    extract_coords (move_line mt p)
    = {| cX := Some qx; cY := Some qy; cE := Some qe; cF := None |} /\
    qx == rounded 5 (pX p) /\ qy == rounded 5 (pY p) /\ qe == rounded 5 (pE p).
Proof.
  intros Hmt.
  destruct (float_format_value 5 (pX p)) as (qx & Hfx & Hqx & _).
  destruct (float_format_value 5 (pY p)) as (qy & Hfy & Hqy & _).
  destruct (float_format_value 5 (pE p)) as (qe & Hfe & Hqe & _).
  exists qx, qy, qe. split; [|auto].
  assert (Hnum : forall (axis : ascii) (x : Q),
             isdigit axis = false -> axis <> "-"%char -> axis <> "."%char ->
             all_chars (fun c => negb (axis =? c)%char) (format_f 5 x) = true).
  { intros axis x Hd Hm Hp. eapply all_chars_weaken; [|apply format_f_numeric].
    intros c. apply numeric_not_letter; assumption. }
  unfold extract_coords. rewrite !extract_axis_leftmost. unfold move_line.
  f_equal.
  - rewrite <- Hfx.
    replace (mt ++ " X" ++ format_f 5 (pX p) ++ " Y" ++ format_f 5 (pY p)
                ++ " E" ++ format_f 5 (pE p) ++ nl)%string
      with ((mt ++ " ") ++ String "X" (format_f 5 (pX p) ++ String " "
              ("Y" ++ format_f 5 (pY p) ++ " E" ++ format_f 5 (pE p) ++ nl)))%string
      by (rewrite !str_app_assoc; reflexivity).
    apply extract_leftmost_field; [|reflexivity].
    destruct Hmt as [-> | ->]; reflexivity.
  - rewrite <- Hfy.
    replace (mt ++ " X" ++ format_f 5 (pX p) ++ " Y" ++ format_f 5 (pY p)
                ++ " E" ++ format_f 5 (pE p) ++ nl)%string
      with ((mt ++ " X" ++ format_f 5 (pX p) ++ " ")
              ++ String "Y" (format_f 5 (pY p) ++ String " "
                   ("E" ++ format_f 5 (pE p) ++ nl)))%string
      by (rewrite !str_app_assoc; reflexivity).
    apply extract_leftmost_field; [|reflexivity].
    rewrite !all_chars_app, Hnum by (reflexivity || discriminate).
    destruct Hmt as [-> | ->]; reflexivity.
  - rewrite <- Hfe.
    replace (mt ++ " X" ++ format_f 5 (pX p) ++ " Y" ++ format_f 5 (pY p)
                ++ " E" ++ format_f 5 (pE p) ++ nl)%string
      with ((mt ++ " X" ++ format_f 5 (pX p) ++ " Y" ++ format_f 5 (pY p) ++ " ")
              ++ String "E" (format_f 5 (pE p) ++ String "010" ""))%string
      by (rewrite !str_app_assoc; reflexivity).
    apply extract_leftmost_field; [|reflexivity].
    rewrite !all_chars_app, !Hnum by (reflexivity || discriminate).
    destruct Hmt as [-> | ->]; reflexivity.
  - apply extract_leftmost_absent.
    rewrite !all_chars_app, !Hnum by (reflexivity || discriminate).
    destruct Hmt as [-> | ->]; reflexivity.
Qed.

(** *** The program *)



Lemma input_result (prompt : string) (w : world) :
  snd (input prompt w) = None <-> stdin w = [].
Proof.
  unfold input. cbn [print stdin].
  destruct (stdin w); cbn [snd]; split; intros H; try reflexivity; discriminate.
Qed.

Section ProgramFacts.

Variable hypot : Q -> Q -> Q.
Variable read_error : string -> string.
Variable write_error : string -> string.





End ProgramFacts.

(** *** Distances and pulses *)

Lemma Qfloor_succ (x : Q) : Qfloor (x + 1) = (Qfloor x + 1)%Z.
Proof.
  apply Qfloor_unique.
  - rewrite inject_Z_plus. pose proof (Qfloor_le x). change (inject_Z 1) with 1. lra.
  - rewrite inject_Z_plus. pose proof (Qlt_floor x) as H.
    rewrite inject_Z_plus in H. change (inject_Z 1) with 1 in *. lra.
Qed.

Section Distances.

Variable hypot : Q -> Q -> Q.
Hypothesis hypot_nonneg : forall x y : Q, 0 <= hypot x y.

(** X9.  Distance is conserved along a run: what is left in the accumulator
    at the end is the total planar displacement of the depositing moves
    less one threshold for each pulse. *)
Theorem distance_is_conserved (lines : list string) :
  accumulated_distance (fst (process_lines hypot initial lines))
  == Qsum (displacements hypot (last_pos initial) lines)
     - inject_Z (Z.of_nat (pulses hypot lines)) * TRIGGER_DISTANCE_MM.
Proof.
  pose proof (run_balance hypot hypot_nonneg lines initial in_range_initial) as Hb.
  cbv zeta in Hb. change (accumulated_distance initial) with 0 in Hb.
  unfold pulses, process_gcode_stdout. lra.
Qed.

(** X10.  The pulses of one move: a depositing move of planar displacement
    [d], wherever it comes in a file, gives [floor(d / threshold)] pulses or
    one more (the one that the distance left by earlier moves completes). *)
Theorem pulses_of_one_move (lines : list string) (line : string) :
  let st := fst (process_lines hypot initial lines) in
  is_depositing (last_pos st) line = true ->
  let d := displacement hypot (last_pos st) line in
  let n := Z.of_nat (List.length (printed (snd (process_line hypot st line)))) in
  (Qfloor (d / TRIGGER_DISTANCE_MM) <= n
   /\ n <= Qfloor (d / TRIGGER_DISTANCE_MM) + 1)%Z.
Proof.
  intros st Hd d n.
  assert (Hr : in_range st)
    by (apply (in_range_run hypot hypot_nonneg), in_range_initial).
  destruct (depositing_step hypot hypot_nonneg st line Hr Hd) as (_ & Hn & _ & _).
  fold d in Hn. unfold n. rewrite Hn.
  destruct Hr as [Hlo Hhi].
  pose proof (displacement_nonneg hypot hypot_nonneg (last_pos st) line) as Hdn.
  fold d in Hdn.
  assert (H0 : 0 <= accumulated_distance st + d) by lra.
  destruct (crossings_bracket _ H0) as (_ & -> & _).
  pose proof trigger_pos as HT.
  assert (HTne : ~ TRIGGER_DISTANCE_MM == 0).
  { intros E. rewrite E in HT. discriminate. }
  split.
  - apply Qfloor_resp_le.
    apply Qle_shift_div_l; [exact HT|].
    rewrite Qmult_comm, Qmult_div_r by exact HTne. lra.
  - rewrite <- Qfloor_succ. apply Qfloor_resp_le.
    apply Qle_shift_div_r; [exact HT|].
    rewrite Qmult_plus_distr_l, Qmult_1_l.
    rewrite (Qmult_comm (d / TRIGGER_DISTANCE_MM)), Qmult_div_r by exact HTne.
    lra.
Qed.

End Distances.

(** *** The properties on concrete inputs *)

Lemma no_deposit_only_elides_witness :
  let lines := [ln "; start"; ln "M104 S200"; ln "G0 X5 Y5"; ln "G1 X9 E0"] in
  displacements hypot_isqrt (last_pos initial) lines = [] /\
  process_gcode hypot_isqrt lines = kept lines /\
  process_gcode hypot_isqrt (process_gcode hypot_isqrt lines)
  = process_gcode hypot_isqrt lines.
Proof.
  intros lines.
  assert (Hd : displacements hypot_isqrt (last_pos initial) lines = [])
    by (vm_compute; reflexivity).
  split; [exact Hd|].
  exact (no_deposit_only_elides hypot_isqrt lines Hd).
Defined.

Lemma command_code_kept_witness :
  let line := ln "  G0 X1 Y2 E3 ; travel" in
  is_motion line = true /\
  (startswith (strip line) "G1" = true \/ contains "G1" (strip line) = false) /\
  move_type_of line = substring 0 2 (strip line).
Proof.
  intros line.
  assert (Hm : is_motion line = true) by (vm_compute; reflexivity).
  assert (Hc : startswith (strip line) "G1" = true
               \/ contains "G1" (strip line) = false)
    by (right; vm_compute; reflexivity).
  split; [exact Hm|]. split; [exact Hc|].
  exact (command_code_kept line Hm Hc).
Defined.

Lemma distance_is_conserved_witness :
  accumulated_distance (fst (process_lines hypot_isqrt initial sample_lines))
  == Qsum (displacements hypot_isqrt (last_pos initial) sample_lines)
     - inject_Z (Z.of_nat (pulses hypot_isqrt sample_lines)) * TRIGGER_DISTANCE_MM.
Proof.
  exact (distance_is_conserved hypot_isqrt hypot_isqrt_nonneg sample_lines).
Defined.

Lemma pulses_of_one_move_witness :
  let st := fst (process_lines hypot_isqrt initial [ln "G1 X0.5 E1"]) in
  let line := ln "G1 X0.5 Y2.5 E2" in
  is_depositing (last_pos st) line = true /\
  let d := displacement hypot_isqrt (last_pos st) line in
  let n := Z.of_nat (List.length (printed (snd (process_line hypot_isqrt st line)))) in
  (Qfloor (d / TRIGGER_DISTANCE_MM) <= n
   /\ n <= Qfloor (d / TRIGGER_DISTANCE_MM) + 1)%Z.
Proof.
  intros st line.
  assert (Hd : is_depositing (last_pos st) line = true) by (vm_compute; reflexivity).
  split; [exact Hd|].
  exact (pulses_of_one_move hypot_isqrt hypot_isqrt_nonneg
           [ln "G1 X0.5 E1"] line Hd).
Defined.




Lemma rewritten_line_reads_back_witness :
  let p := {| pX := 3 # 2; pY := -1 # 3; pE := 1 # 64; pF := Some (1500 # 1) |} in
  ("G1"%string = "G0"%string \/ "G1"%string = "G1"%string) /\
  exists qx qy qe : Q,
    extract_coords (move_line "G1" p)
    = {| cX := Some qx; cY := Some qy; cE := Some qe; cF := None |} /\
    qx == rounded 5 (pX p) /\ qy == rounded 5 (pY p) /\ qe == rounded 5 (pE p).
Proof.
  intros p.
  assert (Hmt : "G1"%string = "G0"%string \/ "G1"%string = "G1"%string)
    by (right; reflexivity).
  split; [exact Hmt|].
  exact (rewritten_line_reads_back "G1" p Hmt).
Defined.

End Coverage.

(** ** The helpers and the rewriter on examples *)

Module TextExamples.
Import Text Re Num.

Example strip_ex : strip (ln "  G1 X1 ") = "G1 X1".
Proof. reflexivity. Qed.

Example format_ex1 : format_f 5 (3 # 2)%Q = "1.50000".
Proof. reflexivity. Qed.

Example format_ex2 : format_f 5 (-1 # 3)%Q = "-0.33333".
Proof. reflexivity. Qed.

Example format_ex3 : format_f 5 (1 # 64)%Q = "0.01562".
Proof. reflexivity. Qed.

Example format_ex4 : format_f 2 (1234567 # 1000)%Q = "1234.57".
Proof. reflexivity. Qed.

Example float_ex1 : float "-12.5" = Some (-125 # 10)%Q.
Proof. reflexivity. Qed.

Example float_ex2 : float ".5" = Some (5 # 10)%Q.
Proof. reflexivity. Qed.

Example float_ex3 : float "-" = None.
Proof. reflexivity. Qed.

End TextExamples.

Module PulseExamples.
Import Text Re Num Pulse.

Example extract_ex1 :
  extract_coords "G1 X10.5 Y-2 E.25 F1500" =
  mkCoords (Some (105 # 10)%Q) (Some (-2 # 1)%Q) (Some (25 # 100)%Q) (Some (1500 # 1)%Q).
Proof. reflexivity. Qed.

Example extract_ex2 : extract_axis "X" "G1 X5." = Some (5 # 1)%Q.
Proof. reflexivity. Qed.

Example extract_ex3 : extract_axis "X" "G1 X-.5.7" = Some (-5 # 10)%Q.
Proof. reflexivity. Qed.

Example run_ex1 :
  process_gcode hypot_isqrt
    [ln "M104 S200"; ln "G1 X3 Y4 E1 F1500 ; first"; ln "G0 X0 Y0"] =
  [ ln "G1 X0.60000 Y0.80000 E0.20000"; ln "M106 S255 ; ON";
    ln "G4 P200 ; Wait"; ln "M107 ; OFF";
    ln "G1 X1.20000 Y1.60000 E0.40000"; ln "M106 S255 ; ON";
    ln "G4 P200 ; Wait"; ln "M107 ; OFF";
    ln "G1 X1.80000 Y2.40000 E0.60000"; ln "M106 S255 ; ON";
    ln "G4 P200 ; Wait"; ln "M107 ; OFF";
    ln "G1 X2.40000 Y3.20000 E0.80000"; ln "M106 S255 ; ON";
    ln "G4 P200 ; Wait"; ln "M107 ; OFF";
    ln "G1 X3.00000 Y4.00000 E1.00000"; ln "M106 S255 ; ON";
    ln "G4 P200 ; Wait"; ln "M107 ; OFF";
    ln "G1 X3.00000 Y4.00000 E1.00000";
    ln "G0 X0 Y0" ].
Proof. vm_compute. reflexivity. Qed.

Example readlines_ex :
  readlines ("G0 X1" ++ nl ++ nl ++ "G1 X2 E1")%string
  = [ln "G0 X1"; nl; "G1 X2 E1"%string].
Proof. reflexivity. Qed.

Example readlines_empty : readlines "" = [].
Proof. reflexivity. Qed.

Example main_ex_rewrites :
  let (w, status) := main hypot_isqrt no_message no_message
                          ["pulse.py"; "part.gcode"]%string sample_world in
  status = 0%Z /\
  files w "part.gcode"
  = Some (ln "G1 X1.00000 Y0.00000 E1.00000" ++ ln "M106 S255 ; ON"
            ++ ln "G4 P200 ; Wait" ++ ln "M107 ; OFF"
            ++ ln "G1 X1.00000 Y0.00000 E1.00000")%string /\
  stdout w = [ "Processing G-code file: part.gcode"; "Triggered at X1.00 Y0.00";
               "Done."; "Press Enter to exit..." ]%string.
Proof. vm_compute. repeat split; reflexivity. Qed.

Example main_ex_usage :
  let (w, status) := main hypot_isqrt no_message no_message
                          ["pulse.py"]%string sample_world in
  status = 1%Z /\
  files w "part.gcode" = files sample_world "part.gcode" /\
  stdout w = [ "Usage: python pulse_fixed_no_temp.py <gcode_file>";
               "Press Enter to exit..." ]%string.
Proof. vm_compute. repeat split; reflexivity. Qed.

Example main_ex_missing :
  let (w, status) := main hypot_isqrt no_message no_message
                          ["pulse.py"; "other.gcode"]%string sample_world in
  status = 1%Z /\
  stdout w = [ "Processing G-code file: other.gcode";
               "Error: cannot open other.gcode"; "Press Enter to exit..." ]%string.
Proof. vm_compute. repeat split; reflexivity. Qed.

End PulseExamples.
